(** * ustl/ufunction.h : the standard functors and their adaptors

    A shallow embedding of [src/ufunction.h].  Every class template of the
    header becomes a record with the fields of the class, every
    [operator()] an instance of the call interface of its arity, and every
    factory function a definition of the same name.  A wrapped callable may
    have effects of its own (a function pointer can read and write anything
    it likes), so calls live in a state monad over an arbitrary [World]; the
    adaptors themselves only thread that state through. *)

From Stdlib Require Import ZArith List String Bool Lia.
Import ListNotations.
Open Scope Z_scope.

(** ** Scalar types *)

(** [int] of the scenarios: a 32-bit two's complement integer carried in [Z]. *)
Definition int : Type := Z.

(** Reduction of a mathematical integer into the range of [int]. *)
Definition wrap_int (z : Z) : int :=
  (z + 2 ^ 31) mod 2 ^ 32 - 2 ^ 31.

(** What the functors of lines 62-77 require of their [T]: the built-in
    operators.  The comparison functors only ever write [a < b] and
    [a == b], which is all this interface offers. *)
Class Comparable (T : Type) : Type := {
  op_lt : T -> T -> bool;
  op_eq : T -> T -> bool
}.

(** Contextual conversion of a [T] to [bool] (operand of [!], [&&], [||])
    and the implicit conversion of a [bool] back to [T] on [return]. *)
Class BoolConv (T : Type) : Type := {
  to_bool : T -> bool;
  from_bool : bool -> T
}.

#[global] Instance int_Comparable : Comparable int := {|
  op_lt := Z.ltb;
  op_eq := Z.eqb
|}.

#[global] Instance bool_BoolConv : BoolConv bool := {|
  to_bool := fun b => b;
  from_bool := fun b => b
|}.

(** An integral value is true when it is not zero; [true] converts to 1 and
    [false] to 0, whatever the width and signedness of the type. *)
#[global] Instance integral_BoolConv : BoolConv Z := {|
  to_bool := fun a => negb (a =? 0);
  from_bool := fun b => if b then 1 else 0
|}.

(** The arithmetic operators the functors of lines 62-69 write on their
    [T]: [a + b], [a - b], [a * b], [a / b], [a % b] and [-a]. *)
Class Arith (T : Type) : Type := {
  op_add : T -> T -> T;
  op_sub : T -> T -> T;
  op_mul : T -> T -> T;
  op_div : T -> T -> T;
  op_mod : T -> T -> T;
  op_neg : T -> T
}.

(** [unsigned int]: a 32-bit value carried in [N], with arithmetic modulo
    [2 ^ 32]. *)
Definition unsigned_int : Type := N.

Definition unsigned_range (a : unsigned_int) : Prop := (a < 2 ^ 32)%N.

Definition wrap_unsigned (z : Z) : unsigned_int := Z.to_N (z mod 2 ^ 32).

(** Division and remainder by zero are undefined in C++; the two operators
    are meant for a divisor that is not zero only. *)
#[global] Instance unsigned_Arith : Arith unsigned_int := {|
  op_add := fun a b => wrap_unsigned (Z.of_N a + Z.of_N b);
  op_sub := fun a b => wrap_unsigned (Z.of_N a - Z.of_N b);
  op_mul := fun a b => wrap_unsigned (Z.of_N a * Z.of_N b);
  op_div := fun a b => (a / b)%N;
  op_mod := fun a b => (a mod b)%N;
  op_neg := fun a => wrap_unsigned (- Z.of_N a)
|}.

#[global] Instance unsigned_Comparable : Comparable unsigned_int := {|
  op_lt := N.ltb;
  op_eq := N.eqb
|}.

(** What a [T] may or may not offer beyond the two operators. *)

(** [<] is a strict order. *)
Definition strict_order (T : Type) `{Comparable T} : Prop :=
  (forall a : T, op_lt a a = false) /\
  (forall a b c : T, op_lt a b = true -> op_lt b c = true -> op_lt a c = true).

(** [==] is an equivalence. *)
Definition equivalence_eq (T : Type) `{Comparable T} : Prop :=
  (forall a : T, op_eq a a = true) /\
  (forall a b : T, op_eq a b = true -> op_eq b a = true) /\
  (forall a b c : T, op_eq a b = true -> op_eq b c = true -> op_eq a c = true).

(** Of [a < b], [a == b] and [b < a] exactly one holds. *)
Definition trichotomous (T : Type) `{Comparable T} : Prop :=
  forall a b : T,
    (op_lt a b = true /\ op_eq a b = false /\ op_lt b a = false) \/
    (op_lt a b = false /\ op_eq a b = true /\ op_lt b a = false) \/
    (op_lt a b = false /\ op_eq a b = false /\ op_lt b a = true).

(** Converting a [bool] to [T] and back gives the [bool] again. *)
Definition bool_retract (T : Type) `{BoolConv T} : Prop :=
  forall b : bool, to_bool (from_bool (T:=T) b) = b.

(** ** The declarations of the header

    What a class of the header declares, as far as generic code can ask
    it: the signature tag it derives from, the typedefs of its body, and
    the parameter and result types of its [operator()]. *)

Module Decl.

(** C++ types as they are written in the header. *)
Inductive ctype : Type :=
| Void
| Bool
| Int
| ClassType (name : string)
| Ptr (t : ctype)         (* pointer to t *)
| ConstPtr (t : ctype)    (* pointer to const t *)
| Ref (t : ctype)         (* t& *)
| ConstRef (t : ctype).   (* const t& *)

Fixpoint ctype_eqb (s t : ctype) : bool :=
  match s, t with
  | Void, Void | Bool, Bool | Int, Int => true
  | ClassType m, ClassType n => String.eqb m n
  | Ptr u, Ptr v | ConstPtr u, ConstPtr v
  | Ref u, Ref v | ConstRef u, ConstRef v => ctype_eqb u v
  | _, _ => false
  end.

(** [const t&] written over a typedef or a template parameter [t]: on a type
    that is a reference already the qualifier and the second [&] fall away. *)
Definition const_ref (t : ctype) : ctype :=
  match t with
  | Ref _ | ConstRef _ => t
  | _ => ConstRef t
  end.

(** The signature tags of lines 44-60. *)
Inductive sig_tag : Type :=
| void_function (Result : ctype)
| unary_function (Arg Result : ctype)
| binary_function (Arg1 Arg2 Result : ctype).

(** The names a tag or a class body gives to types. *)
Inductive member_name : Type :=
| argument_type | first_argument_type | second_argument_type | result_type
| arg1_t | arg2_t | result_t.

Definition member_name_eqb (m n : member_name) : bool :=
  match m, n with
  | argument_type, argument_type
  | first_argument_type, first_argument_type
  | second_argument_type, second_argument_type
  | result_type, result_type
  | arg1_t, arg1_t | arg2_t, arg2_t | result_t, result_t => true
  | _, _ => false
  end.

Definition tag_member (t : sig_tag) (n : member_name) : option ctype :=
  match t, n with
  | void_function r, result_type => Some r
  | unary_function a _, argument_type => Some a
  | unary_function _ r, result_type => Some r
  | binary_function a1 _ _, first_argument_type => Some a1
  | binary_function _ a2 _, second_argument_type => Some a2
  | binary_function _ _ r, result_type => Some r
  | _, _ => None
  end.

Definition tag_arity (t : sig_tag) : nat :=
  match t with
  | void_function _ => 0
  | unary_function _ _ => 1
  | binary_function _ _ _ => 2
  end.

(** A class: its base, the typedefs of its body (those of pointer types,
    [func_t] and [mem_var_ptr_t], name no part of a signature and are left
    out), and the signature of its call operator. *)
Record class_decl : Type := mk_class {
  base : sig_tag;
  typedefs : list (member_name * ctype);
  call_params : list ctype;
  call_result : ctype
}.

Fixpoint typedef_lookup (l : list (member_name * ctype)) (n : member_name) :
  option ctype :=
  match l with
  | [] => None
  | (m, t) :: l' => if member_name_eqb m n then Some t else typedef_lookup l' n
  end.

(** [C::n]: a typedef of the body hides the one of the base. *)
Definition member (c : class_decl) (n : member_name) : option ctype :=
  match typedef_lookup (typedefs c) n with
  | Some t => Some t
  | None => tag_member (base c) n
  end.

Definition call_arity (c : class_decl) : nat := List.length (call_params c).

(** An argument declared as [a] in the tag is taken by the call operator as
    [a] itself or as [const a&]. *)
Definition passes (a p : ctype) : bool :=
  ctype_eqb p a || ctype_eqb p (const_ref a).

(** The tag of the class is the one of its call operator: same arity, same
    argument types, same result type. *)
Definition tag_matches_call (c : class_decl) : bool :=
  match base c, call_params c with
  | void_function r, [] => ctype_eqb r (call_result c)
  | unary_function a r, [p] => passes a p && ctype_eqb r (call_result c)
  | binary_function a1 a2 r, [q1; q2] =>
      passes a1 q1 && passes a2 q2 && ctype_eqb r (call_result c)
  | _, _ => false
  end.

(** The instance is reached read-only: by value, by reference to const or by
    pointer to const. *)
Definition read_only_access (p : ctype) : bool :=
  match p with
  | Ref _ | Ptr _ => false
  | _ => true
  end.

(** *** Standard functors (lines 62-77) *)

Definition binary_functor (T Result : ctype) : class_decl :=
  mk_class (binary_function T T Result) [] [const_ref T; const_ref T] Result.

Definition unary_functor (T Result : ctype) : class_decl :=
  mk_class (unary_function T Result) [] [const_ref T] Result.

Definition plus (T : ctype) : class_decl := binary_functor T T.
Definition minus (T : ctype) : class_decl := binary_functor T T.
Definition divides (T : ctype) : class_decl := binary_functor T T.
Definition modulus (T : ctype) : class_decl := binary_functor T T.
Definition multiplies (T : ctype) : class_decl := binary_functor T T.
Definition logical_and (T : ctype) : class_decl := binary_functor T T.
Definition logical_or (T : ctype) : class_decl := binary_functor T T.
Definition negate (T : ctype) : class_decl := unary_functor T T.
Definition logical_not (T : ctype) : class_decl := unary_functor T T.
Definition equal_to (T : ctype) : class_decl := binary_functor T Bool.
Definition not_equal_to (T : ctype) : class_decl := binary_functor T Bool.
Definition greater (T : ctype) : class_decl := binary_functor T Bool.
Definition less (T : ctype) : class_decl := binary_functor T Bool.
Definition greater_equal (T : ctype) : class_decl := binary_functor T Bool.
Definition less_equal (T : ctype) : class_decl := binary_functor T Bool.
Definition compare (T : ctype) : class_decl := binary_functor T Int.

(** *** Adaptors *)

(** Lines 83-110. *)
Definition functor1 (Arg Result : ctype) : class_decl :=
  mk_class (unary_function Arg Result)
           [(argument_type, Arg); (result_type, Result)]
           [Arg] Result.

Definition functor2 (Arg1 Arg2 Result : ctype) : class_decl :=
  mk_class (binary_function Arg1 Arg2 Result)
           [(first_argument_type, Arg1); (second_argument_type, Arg2);
            (result_type, Result)]
           [Arg1; Arg2] Result.

(** Lines 133-146.  A template argument that is a functor class is asked for
    its members; where it lacks one the template does not instantiate. *)
Definition unary_negate (UnaryFunction : class_decl) : option class_decl :=
  match member UnaryFunction argument_type, member UnaryFunction result_type with
  | Some a, Some r =>
      Some (mk_class (unary_function a r)
                     [(argument_type, a); (result_type, r)]
                     [const_ref a] r)
  | _, _ => None
  end.

(** Lines 163-191. *)
Definition binder1st (BinaryFunction : class_decl) : option class_decl :=
  match member BinaryFunction first_argument_type,
        member BinaryFunction second_argument_type,
        member BinaryFunction result_type with
  | Some a1, Some a2, Some r =>
      Some (mk_class (unary_function a2 r)
                     [(arg1_t, a1); (arg2_t, a2); (result_t, r)]
                     [const_ref a2] r)
  | _, _, _ => None
  end.

Definition binder2nd (BinaryFunction : class_decl) : option class_decl :=
  match member BinaryFunction first_argument_type,
        member BinaryFunction second_argument_type,
        member BinaryFunction result_type with
  | Some a1, Some a2, Some r =>
      Some (mk_class (unary_function a1 r)
                     [(arg1_t, a1); (arg2_t, a2); (result_t, r)]
                     [const_ref a1] r)
  | _, _, _ => None
  end.

(** Lines 217-240: [class ClassName : public unary_function<ArgType,Ret>]
    with [Ret operator() (ArgType p) const]. *)
Definition MEM_FUN_T (ArgType Ret : ctype) : class_decl :=
  mk_class (unary_function ArgType Ret) [] [ArgType] Ret.

Definition mem_fun_t (Ret T : ctype) : class_decl := MEM_FUN_T (Ptr T) Ret.
Definition const_mem_fun_t (Ret T : ctype) : class_decl := MEM_FUN_T (ConstPtr T) Ret.
Definition mem_fun_ref_t (Ret T : ctype) : class_decl := MEM_FUN_T (Ptr T) Ret.
Definition const_mem_fun_ref_t (Ret T : ctype) : class_decl := MEM_FUN_T (ConstPtr T) Ret.

(** Lines 242-266: [class ClassName : public unary_function<V,void>] with
    [Ret operator() (ArgType v) const]. *)
Definition EXT_MEM_FUN_T (ArgType Ret V : ctype) : class_decl :=
  mk_class (unary_function V Void) [] [ArgType] Ret.

Definition ext_mem_fun_t (T Ret V : ctype) : class_decl :=
  EXT_MEM_FUN_T (Ref V) Ret V.
Definition ext_mem_funbv_t (T Ret V : ctype) : class_decl :=
  EXT_MEM_FUN_T V Ret V.
Definition const_ext_mem_fun_t (T Ret V : ctype) : class_decl :=
  EXT_MEM_FUN_T (ConstRef V) Ret V.
Definition const_ext_mem_funbv_t (T Ret V : ctype) : class_decl :=
  EXT_MEM_FUN_T V Ret V.

(** Lines 276-338. *)
Definition mem_var1_t (UnaryFunction : class_decl) (T VT : ctype) :
  option class_decl :=
  match member UnaryFunction result_type with
  | Some r =>
      Some (mk_class (unary_function (Ref T) r)
                     [(argument_type, Ref T); (result_type, r)]
                     [Ref T] r)
  | None => None
  end.

Definition const_mem_var1_t (UnaryFunction : class_decl) (T VT : ctype) :
  option class_decl :=
  match member UnaryFunction result_type with
  | Some r =>
      Some (mk_class (unary_function (ConstRef T) r)
                     [(argument_type, ConstRef T); (result_type, r)]
                     [ConstRef T] r)
  | None => None
  end.

Definition mem_var2_t (BinaryFunction : class_decl) (T VT : ctype) :
  option class_decl :=
  match member BinaryFunction result_type with
  | Some r =>
      Some (mk_class (unary_function (Ref T) r)
                     [(argument_type, Ref T); (result_type, r)]
                     [Ref T; Ref T] r)
  | None => None
  end.

Definition const_mem_var2_t (BinaryFunction : class_decl) (T VT : ctype) :
  option class_decl :=
  match member BinaryFunction result_type with
  | Some r =>
      Some (mk_class (binary_function (ConstRef T) (ConstRef T) r)
                     [(argument_type, ConstRef T); (result_type, r)]
                     [ConstRef T; ConstRef T] r)
  | None => None
  end.

(** The classes whose call operator is [m_pfn(p1.*m_pv, p2.*m_pv)]: the
    adaptors of a member over two instances. *)
Definition member2_variants (BinaryFunction : class_decl) (T VT : ctype) :
  list (option class_decl) :=
  [mem_var2_t BinaryFunction T VT; const_mem_var2_t BinaryFunction T VT].

End Decl.

(** The return types of the convenience compositions (lines 374-404), built
    from the class templates as the header spells them. *)
Module DeclFactory.

Definition mem_var_equal_to (T VT : Decl.ctype) : option Decl.class_decl :=
  match Decl.binder2nd (Decl.equal_to VT) with
  | Some b => Decl.const_mem_var1_t b T VT
  | None => None
  end.

Definition mem_var_less (T VT : Decl.ctype) : option Decl.class_decl :=
  match Decl.binder2nd (Decl.less VT) with
  | Some b => Decl.const_mem_var1_t b T VT
  | None => None
  end.

Definition mem_var_equal_to_pair (T VT : Decl.ctype) : option Decl.class_decl :=
  Decl.const_mem_var2_t (Decl.equal_to VT) T VT.

Definition mem_var_less_pair (T VT : Decl.ctype) : option Decl.class_decl :=
  Decl.const_mem_var2_t (Decl.less VT) T VT.

End DeclFactory.

Section Functors.

Context {World : Type}.

(** ** Calls and their effects *)

Definition Eff (R : Type) : Type := World -> R * World.

Definition ret {R : Type} (r : R) : Eff R := fun w => (r, w).

Definition bind {A B : Type} (c : Eff A) (k : A -> Eff B) : Eff B :=
  fun w => let (a, w') := c w in k a w'.

Notation "x <- c ;; k" := (bind c (fun x => k))
  (at level 61, c at next level, right associativity).

(** [operator()] of one and of two arguments.  All call operators of the
    header are [const]: a call receives the functor and hands back a result
    and the world, never a changed functor. *)
Class Callable1 (F A R : Type) : Type :=
  call1 : F -> A -> Eff R.

Class Callable2 (F A B R : Type) : Type :=
  call2 : F -> A -> B -> Eff R.

(** Plain function pointers to a function of one argument and to a function
    of two arguments. *)
Definition fn_ptr1 (Arg Result : Type) : Type := Arg -> Eff Result.
Definition fn_ptr2 (Arg1 Arg2 Result : Type) : Type := Arg1 -> Arg2 -> Eff Result.

#[global] Instance fn_ptr1_call (Arg Result : Type) :
  Callable1 (fn_ptr1 Arg Result) Arg Result :=
  fun pfn v => pfn v.

#[global] Instance fn_ptr2_call (Arg1 Arg2 Result : Type) :
  Callable2 (fn_ptr2 Arg1 Arg2 Result) Arg1 Arg2 Result :=
  fun pfn v1 v2 => pfn v1 v2.

(** ** Standard functors (lines 62-77) *)

Record logical_and (T : Type) : Type := mk_logical_and {}.
Record logical_or (T : Type) : Type := mk_logical_or {}.
Record logical_not (T : Type) : Type := mk_logical_not {}.
Record equal_to (T : Type) : Type := mk_equal_to {}.
Record not_equal_to (T : Type) : Type := mk_not_equal_to {}.
Record greater (T : Type) : Type := mk_greater {}.
Record less (T : Type) : Type := mk_less {}.
Record greater_equal (T : Type) : Type := mk_greater_equal {}.
Record less_equal (T : Type) : Type := mk_less_equal {}.
Record compare (T : Type) : Type := mk_compare {}.

#[global] Arguments mk_logical_and {T}.
#[global] Arguments mk_logical_or {T}.
#[global] Arguments mk_logical_not {T}.
#[global] Arguments mk_equal_to {T}.
#[global] Arguments mk_not_equal_to {T}.
#[global] Arguments mk_greater {T}.
#[global] Arguments mk_less {T}.
#[global] Arguments mk_greater_equal {T}.
#[global] Arguments mk_less_equal {T}.
#[global] Arguments mk_compare {T}.

Section StdFunctors.
Context {T : Type}.

(** [return (a && b);] and [return (a || b);] with result type [T]. *)
#[global] Instance logical_and_call `{BoolConv T} :
  Callable2 (logical_and T) T T T :=
  fun _ a b => ret (from_bool (to_bool a && to_bool b)).

#[global] Instance logical_or_call `{BoolConv T} :
  Callable2 (logical_or T) T T T :=
  fun _ a b => ret (from_bool (to_bool a || to_bool b)).

#[global] Instance logical_not_call `{BoolConv T} :
  Callable1 (logical_not T) T T :=
  fun _ a => ret (from_bool (negb (to_bool a))).

#[global] Instance equal_to_call `{Comparable T} :
  Callable2 (equal_to T) T T bool :=
  fun _ a b => ret (op_eq a b).

#[global] Instance not_equal_to_call `{Comparable T} :
  Callable2 (not_equal_to T) T T bool :=
  fun _ a b => ret (negb (op_eq a b)).

#[global] Instance greater_call `{Comparable T} :
  Callable2 (greater T) T T bool :=
  fun _ a b => ret (op_lt b a).

#[global] Instance less_call `{Comparable T} :
  Callable2 (less T) T T bool :=
  fun _ a b => ret (op_lt a b).

#[global] Instance greater_equal_call `{Comparable T} :
  Callable2 (greater_equal T) T T bool :=
  fun _ a b => ret (op_lt b a || op_eq a b).

#[global] Instance less_equal_call `{Comparable T} :
  Callable2 (less_equal T) T T bool :=
  fun _ a b => ret (op_lt a b || op_eq a b).

#[global] Instance compare_call `{Comparable T} :
  Callable2 (compare T) T T int :=
  fun _ a b => ret (if op_lt a b then -1 else if op_eq a b then 0 else 1).
End StdFunctors.

(** The arithmetic functors (lines 62-66 and 69). *)
Record plus (T : Type) : Type := mk_plus {}.
Record minus (T : Type) : Type := mk_minus {}.
Record divides (T : Type) : Type := mk_divides {}.
Record modulus (T : Type) : Type := mk_modulus {}.
Record multiplies (T : Type) : Type := mk_multiplies {}.
Record negate (T : Type) : Type := mk_negate {}.

#[global] Arguments mk_plus {T}.
#[global] Arguments mk_minus {T}.
#[global] Arguments mk_divides {T}.
#[global] Arguments mk_modulus {T}.
#[global] Arguments mk_multiplies {T}.
#[global] Arguments mk_negate {T}.

Section ArithFunctors.
Context {T : Type} `{Arith T}.

#[global] Instance plus_call : Callable2 (plus T) T T T :=
  fun _ a b => ret (op_add a b).

#[global] Instance minus_call : Callable2 (minus T) T T T :=
  fun _ a b => ret (op_sub a b).

#[global] Instance divides_call : Callable2 (divides T) T T T :=
  fun _ a b => ret (op_div a b).

#[global] Instance modulus_call : Callable2 (modulus T) T T T :=
  fun _ a b => ret (op_mod a b).

#[global] Instance multiplies_call : Callable2 (multiplies T) T T T :=
  fun _ a b => ret (op_mul a b).

#[global] Instance negate_call : Callable1 (negate T) T T :=
  fun _ a => ret (op_neg a).
End ArithFunctors.

(** ** Function pointer to functor converters (lines 83-127) *)

Record functor1 (Arg Result UnaryFunction : Type) : Type := mk_functor1 {
  functor1_m_pfn : UnaryFunction
}.
#[global] Arguments mk_functor1 {Arg Result UnaryFunction}.
#[global] Arguments functor1_m_pfn {Arg Result UnaryFunction}.

Record functor2 (Arg1 Arg2 Result BinaryFunction : Type) : Type := mk_functor2 {
  functor2_m_pfn : BinaryFunction
}.
#[global] Arguments mk_functor2 {Arg1 Arg2 Result BinaryFunction}.
#[global] Arguments functor2_m_pfn {Arg1 Arg2 Result BinaryFunction}.

(** [result_type operator() (argument_type v) const { return (m_pfn(v)); }] *)
#[global] Instance functor1_call {Arg Result UnaryFunction : Type}
  `{Callable1 UnaryFunction Arg Result} :
  Callable1 (functor1 Arg Result UnaryFunction) Arg Result :=
  fun f v => call1 (functor1_m_pfn f) v.

#[global] Instance functor2_call {Arg1 Arg2 Result BinaryFunction : Type}
  `{Callable2 BinaryFunction Arg1 Arg2 Result} :
  Callable2 (functor2 Arg1 Arg2 Result BinaryFunction) Arg1 Arg2 Result :=
  fun f v1 v2 => call2 (functor2_m_pfn f) v1 v2.

(** The two overloads of [functor], told apart in C++ by the arity of the
    function pointer; [functor] is the overload of line 116 and
    [functor_binary] the one of line 124. *)
Definition functor {Arg Result : Type} (pfn : fn_ptr1 Arg Result) :
  functor1 Arg Result (fn_ptr1 Arg Result) :=
  mk_functor1 pfn.

Definition functor_binary {Arg1 Arg2 Result : Type}
  (pfn : fn_ptr2 Arg1 Arg2 Result) :
  functor2 Arg1 Arg2 Result (fn_ptr2 Arg1 Arg2 Result) :=
  mk_functor2 pfn.

(** ** Negators (lines 133-155) *)

Record unary_negate (UnaryFunction : Type) : Type := mk_unary_negate {
  unary_negate_m_pfn : UnaryFunction
}.
#[global] Arguments mk_unary_negate {UnaryFunction}.
#[global] Arguments unary_negate_m_pfn {UnaryFunction}.

(** [result_type operator() (const argument_type& v) const
      { return (!m_pfn(v)); }]: the result of the wrapped call is converted
    to [bool], negated, and converted to the declared [result_type]. *)
#[global] Instance unary_negate_call {UnaryFunction Arg Result : Type}
  `{Callable1 UnaryFunction Arg Result} `{BoolConv Result} :
  Callable1 (unary_negate UnaryFunction) Arg Result :=
  fun f v => r <- call1 (unary_negate_m_pfn f) v ;;
             ret (from_bool (negb (to_bool r))).

Definition unary_negator {UnaryFunction : Type} (pfn : UnaryFunction) :
  unary_negate UnaryFunction :=
  mk_unary_negate pfn.

(** ** Argument binders (lines 163-209) *)

(** The binders keep the bound value in a member [m_Value] whose type is the
    argument type the wrapped functor declares.  Where that type is a value
    type the member holds a copy.  Where it is a reference type (as
    [const T&], declared by [const_mem_var2_t]) the member does not hold the
    object but refers to it: the object stays with the caller, in the world,
    and is read through the reference at every call. *)
Record reference (T : Type) : Type := mk_reference {
  deref : World -> T
}.
#[global] Arguments mk_reference {T}.
#[global] Arguments deref {T}.

(** Reading a member declared with type [S] as a [T]. *)
Class Stored (S T : Type) : Type :=
  load : S -> World -> T.

#[global] Instance value_Stored (T : Type) : Stored T T :=
  fun v _ => v.

#[global] Instance reference_Stored (T : Type) : Stored (reference T) T :=
  fun r w => deref r w.

Record binder1st (BinaryFunction arg1_t : Type) : Type := mk_binder1st {
  binder1st_m_pfn : BinaryFunction;
  binder1st_m_Value : arg1_t
}.
#[global] Arguments mk_binder1st {BinaryFunction arg1_t}.
#[global] Arguments binder1st_m_pfn {BinaryFunction arg1_t}.
#[global] Arguments binder1st_m_Value {BinaryFunction arg1_t}.

Record binder2nd (BinaryFunction arg2_t : Type) : Type := mk_binder2nd {
  binder2nd_m_pfn : BinaryFunction;
  binder2nd_m_Value : arg2_t
}.
#[global] Arguments mk_binder2nd {BinaryFunction arg2_t}.
#[global] Arguments binder2nd_m_pfn {BinaryFunction arg2_t}.
#[global] Arguments binder2nd_m_Value {BinaryFunction arg2_t}.

(** [result_t operator()(const arg2_t& v2) const
      { return (m_pfn (m_Value, v2)); }] *)
#[global] Instance binder1st_call
  {BinaryFunction arg1_t first_t arg2_t result_t : Type}
  `{Callable2 BinaryFunction first_t arg2_t result_t}
  `{Stored arg1_t first_t} :
  Callable1 (binder1st BinaryFunction arg1_t) arg2_t result_t :=
  fun f v2 w =>
    call2 (binder1st_m_pfn f) (load (binder1st_m_Value f) w) v2 w.

(** [result_t operator()(const arg1_t& v1) const
      { return (m_pfn (v1, m_Value)); }] *)
#[global] Instance binder2nd_call
  {BinaryFunction arg1_t arg2_t second_t result_t : Type}
  `{Callable2 BinaryFunction arg1_t second_t result_t}
  `{Stored arg2_t second_t} :
  Callable1 (binder2nd BinaryFunction arg2_t) arg1_t result_t :=
  fun f v1 w =>
    call2 (binder2nd_m_pfn f) v1 (load (binder2nd_m_Value f) w) w.

Definition bind1st {BinaryFunction arg1_t : Type}
  (pfn : BinaryFunction) (v : arg1_t) : binder1st BinaryFunction arg1_t :=
  mk_binder1st pfn v.

Definition bind2nd {BinaryFunction arg2_t : Type}
  (pfn : BinaryFunction) (v : arg2_t) : binder2nd BinaryFunction arg2_t :=
  mk_binder2nd pfn v.

(** ** Member function adaptors (lines 217-266) *)

(** The [CallType] argument of the macro [MEM_FUN_T]: the pointer-to-member
    operator applied to a pointer ([arrow_star]) or to an object
    ([dot_star]). *)
Inductive call_type : Type :=
| arrow_star
| dot_star.

(** A pointer to a method without arguments (the typedef [func_t]) is the
    method seen as a function of its receiver.  [ArgType] is the type the
    receiver is handed over in; all four uses of the macro pass a pointer
    to [T] or to [const T], whose pointee lives in the world. *)
Record MEM_FUN_T (ArgType Ret : Type) (CallType : call_type) : Type :=
  mk_MEM_FUN_T {
    mem_fun_m_pf : ArgType -> Eff Ret
  }.
#[global] Arguments mk_MEM_FUN_T {ArgType Ret}.
#[global] Arguments mem_fun_m_pf {ArgType Ret CallType}.

Definition mem_fun_t (Ret TPtr : Type) : Type :=
  MEM_FUN_T TPtr Ret arrow_star.
Definition const_mem_fun_t (Ret ConstTPtr : Type) : Type :=
  MEM_FUN_T ConstTPtr Ret arrow_star.
Definition mem_fun_ref_t (Ret TPtr : Type) : Type :=
  MEM_FUN_T TPtr Ret dot_star.
Definition const_mem_fun_ref_t (Ret ConstTPtr : Type) : Type :=
  MEM_FUN_T ConstTPtr Ret dot_star.

(** [Ret operator() (ArgType p) const { return ((p CallType m_pf)()); }]
    With [arrow_star] and a pointer [p] this calls the method on the pointee.
    With [dot_star] the left operand has to be an object, and lines 239-240 pass a
    pointer for [ArgType]: the call operator of [mem_fun_ref_t] and of
    [const_mem_fun_ref_t] does not instantiate, so these two classes can be
    built but have no call. *)
#[global] Instance MEM_FUN_T_call {ArgType Ret : Type} :
  Callable1 (MEM_FUN_T ArgType Ret arrow_star) ArgType Ret :=
  fun f p => mem_fun_m_pf f p.

#[global] Instance mem_fun_t_call {Ret TPtr : Type} :
  Callable1 (mem_fun_t Ret TPtr) TPtr Ret := MEM_FUN_T_call.
#[global] Instance const_mem_fun_t_call {Ret ConstTPtr : Type} :
  Callable1 (const_mem_fun_t Ret ConstTPtr) ConstTPtr Ret := MEM_FUN_T_call.

(** The factories [mem_fun] and [mem_fun_ref] of the macro; the const and
    non-const overloads differ in the type of the method pointer only. *)
Definition mem_fun {Ret TPtr : Type} (pf : TPtr -> Eff Ret) :
  mem_fun_t Ret TPtr := mk_MEM_FUN_T arrow_star pf.
Definition mem_fun_const {Ret ConstTPtr : Type} (pf : ConstTPtr -> Eff Ret) :
  const_mem_fun_t Ret ConstTPtr := mk_MEM_FUN_T arrow_star pf.
Definition mem_fun_ref {Ret TPtr : Type} (pf : TPtr -> Eff Ret) :
  mem_fun_ref_t Ret TPtr := mk_MEM_FUN_T dot_star pf.
Definition mem_fun_ref_const {Ret ConstTPtr : Type} (pf : ConstTPtr -> Eff Ret) :
  const_mem_fun_ref_t Ret ConstTPtr := mk_MEM_FUN_T dot_star pf.

(** [EXT_MEM_FUN_T]: the host is bound at construction, the method takes one
    argument. *)
Record EXT_MEM_FUN_T (HostType ArgType Ret : Type) : Type :=
  mk_EXT_MEM_FUN_T {
    ext_mem_fun_m_t : HostType;
    ext_mem_fun_m_pf : HostType -> ArgType -> Eff Ret
  }.
#[global] Arguments mk_EXT_MEM_FUN_T {HostType ArgType Ret}.
#[global] Arguments ext_mem_fun_m_t {HostType ArgType Ret}.
#[global] Arguments ext_mem_fun_m_pf {HostType ArgType Ret}.

Definition ext_mem_fun_t (TPtr Ret V : Type) : Type :=
  EXT_MEM_FUN_T TPtr V Ret.
Definition ext_mem_funbv_t (TPtr Ret V : Type) : Type :=
  EXT_MEM_FUN_T TPtr V Ret.
Definition const_ext_mem_fun_t (ConstTPtr Ret V : Type) : Type :=
  EXT_MEM_FUN_T ConstTPtr V Ret.
Definition const_ext_mem_funbv_t (ConstTPtr Ret V : Type) : Type :=
  EXT_MEM_FUN_T ConstTPtr V Ret.

(** [Ret operator() (ArgType v) const { return ((m_t->*m_pf)(v)); }] *)
#[global] Instance EXT_MEM_FUN_T_call {HostType ArgType Ret : Type} :
  Callable1 (EXT_MEM_FUN_T HostType ArgType Ret) ArgType Ret :=
  fun f v => ext_mem_fun_m_pf f (ext_mem_fun_m_t f) v.

Definition mem_fun_ext {HostType ArgType Ret : Type}
  (p : HostType) (pf : HostType -> ArgType -> Eff Ret) :
  EXT_MEM_FUN_T HostType ArgType Ret :=
  mk_EXT_MEM_FUN_T p pf.

(** ** Member variable adaptors (lines 276-372) *)

(** A pointer to a data member of type [VT] of class [T] (the typedef
    [mem_var_ptr_t]): applied to an object it yields that member of the
    object. *)
Definition mem_var_ptr_t (T VT : Type) : Type := T -> VT.

Record mem_var1_t (UnaryFunction T VT : Type) : Type := mk_mem_var1_t {
  mem_var1_m_pv : mem_var_ptr_t T VT;
  mem_var1_m_pfn : UnaryFunction
}.
#[global] Arguments mk_mem_var1_t {UnaryFunction T VT}.
#[global] Arguments mem_var1_m_pv {UnaryFunction T VT}.
#[global] Arguments mem_var1_m_pfn {UnaryFunction T VT}.

Record const_mem_var1_t (UnaryFunction T VT : Type) : Type := mk_const_mem_var1_t {
  const_mem_var1_m_pv : mem_var_ptr_t T VT;
  const_mem_var1_m_pfn : UnaryFunction
}.
#[global] Arguments mk_const_mem_var1_t {UnaryFunction T VT}.
#[global] Arguments const_mem_var1_m_pv {UnaryFunction T VT}.
#[global] Arguments const_mem_var1_m_pfn {UnaryFunction T VT}.

Record mem_var2_t (BinaryFunction T VT : Type) : Type := mk_mem_var2_t {
  mem_var2_m_pv : mem_var_ptr_t T VT;
  mem_var2_m_pfn : BinaryFunction
}.
#[global] Arguments mk_mem_var2_t {BinaryFunction T VT}.
#[global] Arguments mem_var2_m_pv {BinaryFunction T VT}.
#[global] Arguments mem_var2_m_pfn {BinaryFunction T VT}.

Record const_mem_var2_t (BinaryFunction T VT : Type) : Type := mk_const_mem_var2_t {
  const_mem_var2_m_pv : mem_var_ptr_t T VT;
  const_mem_var2_m_pfn : BinaryFunction
}.
#[global] Arguments mk_const_mem_var2_t {BinaryFunction T VT}.
#[global] Arguments const_mem_var2_m_pv {BinaryFunction T VT}.
#[global] Arguments const_mem_var2_m_pfn {BinaryFunction T VT}.

(** [result_type operator() (argument_type p) const
      { return (m_pfn(p.*m_pv)); }] *)
#[global] Instance mem_var1_t_call {UnaryFunction T VT Result : Type}
  `{Callable1 UnaryFunction VT Result} :
  Callable1 (mem_var1_t UnaryFunction T VT) T Result :=
  fun f p => call1 (mem_var1_m_pfn f) (mem_var1_m_pv f p).

#[global] Instance const_mem_var1_t_call {UnaryFunction T VT Result : Type}
  `{Callable1 UnaryFunction VT Result} :
  Callable1 (const_mem_var1_t UnaryFunction T VT) T Result :=
  fun f p => call1 (const_mem_var1_m_pfn f) (const_mem_var1_m_pv f p).

(** [result_type operator() (argument_type p1, argument_type p2) const
      { return (m_pfn(p1.*m_pv, p2.*m_pv)); }] *)
#[global] Instance mem_var2_t_call {BinaryFunction T VT Result : Type}
  `{Callable2 BinaryFunction VT VT Result} :
  Callable2 (mem_var2_t BinaryFunction T VT) T T Result :=
  fun f p1 p2 => call2 (mem_var2_m_pfn f) (mem_var2_m_pv f p1) (mem_var2_m_pv f p2).

#[global] Instance const_mem_var2_t_call {BinaryFunction T VT Result : Type}
  `{Callable2 BinaryFunction VT VT Result} :
  Callable2 (const_mem_var2_t BinaryFunction T VT) T T Result :=
  fun f p1 p2 =>
    call2 (const_mem_var2_m_pfn f) (const_mem_var2_m_pv f p1) (const_mem_var2_m_pv f p2).

Definition mem_var1 {UnaryFunction T VT : Type}
  (mvp : mem_var_ptr_t T VT) (pfn : UnaryFunction) :
  mem_var1_t UnaryFunction T VT :=
  mk_mem_var1_t mvp pfn.

Definition const_mem_var1 {UnaryFunction T VT : Type}
  (mvp : mem_var_ptr_t T VT) (pfn : UnaryFunction) :
  const_mem_var1_t UnaryFunction T VT :=
  mk_const_mem_var1_t mvp pfn.

Definition mem_var2 {BinaryFunction T VT : Type}
  (mvp : mem_var_ptr_t T VT) (pfn : BinaryFunction) :
  mem_var2_t BinaryFunction T VT :=
  mk_mem_var2_t mvp pfn.

Definition const_mem_var2 {BinaryFunction T VT : Type}
  (mvp : mem_var_ptr_t T VT) (pfn : BinaryFunction) :
  const_mem_var2_t BinaryFunction T VT :=
  mk_const_mem_var2_t mvp pfn.

(** ** Convenience compositions (lines 374-404)

    Each name has two overloads in the header: with a value to compare the
    member to (lines 377 and 385), kept under the name of the header, and
    without one (lines 393 and 401), here with the suffix [_pair]. *)

Definition mem_var_equal_to {T VT : Type} (mvp : mem_var_ptr_t T VT) (v : VT) :
  const_mem_var1_t (binder2nd (equal_to VT) VT) T VT :=
  mk_const_mem_var1_t mvp (bind2nd (@mk_equal_to VT) v).

Definition mem_var_less {T VT : Type} (mvp : mem_var_ptr_t T VT) (v : VT) :
  const_mem_var1_t (binder2nd (less VT) VT) T VT :=
  mk_const_mem_var1_t mvp (bind2nd (@mk_less VT) v).

Definition mem_var_equal_to_pair {T VT : Type} (mvp : mem_var_ptr_t T VT) :
  const_mem_var2_t (equal_to VT) T VT :=
  mk_const_mem_var2_t mvp (@mk_equal_to VT).

Definition mem_var_less_pair {T VT : Type} (mvp : mem_var_ptr_t T VT) :
  const_mem_var2_t (less VT) T VT :=
  mk_const_mem_var2_t mvp (@mk_less VT).

(** ** The scenarios of the specification *)

Record Point : Type := mk_Point { Point_x : int; Point_y : int }.

Definition p1 : Point := mk_Point 3 5.
Definition p2 : Point := mk_Point 3 7.

(** [int square (int n) { return n*n; }] *)
Definition square : fn_ptr1 int int := fun n => ret (wrap_int (n * n)).

(** ** Calls that leave the world alone

    A call is read-only when it hands the world back as it found it; its
    result may still depend on the world, as the result of a const method
    depends on its receiver. *)
Definition read_only {R : Type} (c : Eff R) : Prop :=
  forall w, snd (c w) = w.

(** The result of a call passed through [g], the effect kept. *)
Definition post {R R' : Type} (g : R -> R') (c : Eff R) : Eff R' :=
  fun w => (g (fst (c w)), snd (c w)).

(** Two calls, one after the other, and both results. *)
Definition twice {R : Type} (c1 c2 : Eff R) : Eff (R * R) :=
  r1 <- c1 ;; r2 <- c2 ;; ret (r1, r2).

(** Made twice in a row, the call gives the same result both times and
    leaves the world as it was. *)
Definition repeats {R : Type} (c : Eff R) : Prop :=
  forall w, twice c c w = ((fst (c w), fst (c w)), w).

(** The call [c] of an adaptor relays the call [d] of what it wraps: it is
    that call, result and effect, and nothing besides; so where [d] is
    read-only, [c] made twice gives the same result twice. *)
Definition relays {R : Type} (c d : Eff R) : Prop :=
  (forall w, c w = d w) /\ (read_only d -> repeats c).

(** The value a call returns in a given world. *)
Definition value1 {F A R : Type} `{Callable1 F A R} (f : F) (x : A) (w : World) : R :=
  fst (call1 f x w).

Definition value2 {F A B R : Type} `{Callable2 F A B R}
  (f : F) (x : A) (y : B) (w : World) : R :=
  fst (call2 f x y w).

End Functors.

(** ** Instances used to probe the laws *)

(** A type whose [<] and [==] are those of [Z] on [Some] and reject
    everything on [None], the way unordered values do. *)
Definition unordered_Comparable : Comparable (option Z) := {|
  op_lt := fun a b =>
    match a, b with Some x, Some y => x <? y | _, _ => false end;
  op_eq := fun a b =>
    match a, b with Some x, Some y => x =? y | _, _ => false end
|}.

(** A function with an effect: it returns the number of calls made so far,
    kept in the world. *)
Definition tick : @fn_ptr1 nat unit nat := fun _ n => (n, S n).

(** A reference to a point that is itself the world: the object a caller
    keeps and may change between calls. *)
Definition bound_point : @reference Point Point :=
  mk_reference (fun w => w).

(** The method scenario: objects of a class holding one [int], kept in a
    memory from addresses to values; [bool isEven() const] reads the object
    the receiver points to. *)
Definition memory : Type := nat -> int.

Definition isEven : nat -> @Eff memory bool :=
  fun this mem => (Z.even (mem this), mem).

(** * Properties *)

(** A class template that asks its argument for members instantiates only
    where the argument has them; [instantiated] goes through the lookups of
    such a template and names the class it produces. *)
Ltac instantiated :=
  repeat match goal with
         | |- context [match Decl.member ?c ?n with _ => _ end] =>
             destruct (Decl.member c n); [| discriminate]
         end;
  let E := fresh "E" in
  intros E; injection E as <-.

Section Laws.

Context {World : Type}.

Local Abbreviation Eff := (@Eff World).
Local Abbreviation ret := (@ret World _).
Local Abbreviation bind := (@bind World _ _).
Local Abbreviation fn_ptr1 := (@fn_ptr1 World).
Local Abbreviation fn_ptr2 := (@fn_ptr2 World).
Local Abbreviation Callable1 := (@Callable1 World).
Local Abbreviation Callable2 := (@Callable2 World).
Local Abbreviation Stored := (@Stored World).
Local Abbreviation read_only := (@read_only World _).
Local Abbreviation post := (@post World _ _).
Local Abbreviation twice := (@twice World _).
Local Abbreviation repeats := (@repeats World _).
Local Abbreviation relays := (@relays World _).

Lemma read_only_repeats {R : Type} (c : Eff R) :
  read_only c -> repeats c.
Proof.
  intros Hc w. unfold twice, bind, ret.
  pose proof (Hc w) as Hw.
  destruct (c w) as [r w1] eqn:E. cbn in Hw. subst w1.
  rewrite E. reflexivity.
Qed.

Lemma relays_same {R : Type} (c d : Eff R) :
  (forall w, c w = d w) -> relays c d.
Proof.
  intros Hcd. split; [exact Hcd |].
  intros Hd. apply read_only_repeats.
  intros w. rewrite Hcd. apply Hd.
Qed.

(** ** Member variable adaptors *)

(** C1.  The adaptors of one instance, [mem_var1] and [const_mem_var1], call
    the wrapped functor on the member of the object:
    [member1(m,f)(obj) == f(obj.m)]; the adaptors of two instances,
    [mem_var2] and [const_mem_var2], call it on the members of both:
    [member2(m,f)(x,y) == f(x.m, y.m)].  The equalities are between the whole
    calls: same result, same effect on the world. *)
Theorem member_accessor_laws :
  (forall (UnaryFunction T VT Result : Type)
          (C : Callable1 UnaryFunction VT Result)
          (m : mem_var_ptr_t T VT) (f : UnaryFunction) (obj : T) (w : World),
      call1 (mem_var1 m f) obj w = call1 f (m obj) w /\
      call1 (const_mem_var1 m f) obj w = call1 f (m obj) w) /\
  (forall (BinaryFunction T VT Result : Type)
          (C : Callable2 BinaryFunction VT VT Result)
          (m : mem_var_ptr_t T VT) (f : BinaryFunction) (x y : T) (w : World),
      call2 (mem_var2 m f) x y w = call2 f (m x) (m y) w /\
      call2 (const_mem_var2 m f) x y w = call2 f (m x) (m y) w).
Proof.
  split; intros; split; reflexivity.
Qed.

(** ** Convenience compositions *)

(** C2.  [mem_var_equal_to(m, v)] is the composition
    [const_mem_var1(m, bind2nd(equal_to<VT>(), v))] and answers
    [obj.m == v]; [mem_var_less(m, v)] answers [obj.m < v]; the forms
    without a value are [const_mem_var2] over [equal_to<VT>()] and
    [less<VT>()] and answer [x.m == y.m] and [x.m < y.m].  On the points
    [p1 = {3,5}] and [p2 = {3,7}] the three calls of the scenario answer
    [true]. *)
Theorem convenience_compositions :
  (forall (T VT : Type) (C : Comparable VT)
          (m : mem_var_ptr_t T VT) (v : VT) (obj x y : T) (w : World),
      mem_var_equal_to m v = const_mem_var1 m (bind2nd (@mk_equal_to VT) v) /\
      mem_var_less m v = const_mem_var1 m (bind2nd (@mk_less VT) v) /\
      mem_var_equal_to_pair m = const_mem_var2 m (@mk_equal_to VT) /\
      mem_var_less_pair m = const_mem_var2 m (@mk_less VT) /\
      call1 (mem_var_equal_to m v) obj w = (op_eq (m obj) v, w) /\
      call1 (mem_var_less m v) obj w = (op_lt (m obj) v, w) /\
      call2 (mem_var_equal_to_pair m) x y w = (op_eq (m x) (m y), w) /\
      call2 (mem_var_less_pair m) x y w = (op_lt (m x) (m y), w)) /\
  (forall w : World,
      call1 (mem_var_equal_to Point_x 3) p1 w = (true, w) /\
      call2 (mem_var_less_pair Point_y) p1 p2 w = (true, w) /\
      call2 (mem_var_equal_to_pair Point_x) p1 p2 w = (true, w)).
Proof.
  split.
  - intros. repeat split.
  - intros w. repeat split.
Qed.

(** ** Comparison functors *)

(** C3.  On a type that offers [<] and [==] and nothing else (the interface
    [Comparable]), each comparison functor returns what its name says,
    computed from those two operators: [greater] is [b < a],
    [greater_equal] is [b < a || a == b], [less_equal] is
    [a < b || a == b], and [compare] is -1 when [a < b], else 0 when
    [a == b], else 1.  None of them touches the world. *)
Theorem comparator_family :
  forall (T : Type) (C : Comparable T) (a b : T) (w : World),
    call2 (@mk_less T) a b w = (op_lt a b, w) /\
    call2 (@mk_greater T) a b w = (op_lt b a, w) /\
    call2 (@mk_equal_to T) a b w = (op_eq a b, w) /\
    call2 (@mk_not_equal_to T) a b w = (negb (op_eq a b), w) /\
    call2 (@mk_greater_equal T) a b w = (op_lt b a || op_eq a b, w) /\
    call2 (@mk_less_equal T) a b w = (op_lt a b || op_eq a b, w) /\
    call2 (@mk_compare T) a b w =
      (if op_lt a b then -1 else if op_eq a b then 0 else 1, w) /\
    (op_lt a b = true -> fst (call2 (@mk_compare T) a b w) = -1) /\
    (op_lt a b = false -> op_eq a b = true ->
       fst (call2 (@mk_compare T) a b w) = 0) /\
    (op_lt a b = false -> op_eq a b = false ->
       fst (call2 (@mk_compare T) a b w) = 1).
Proof.
  intros T C a b w.
  repeat match goal with |- _ /\ _ => split end; try reflexivity.
  - intros Hlt. cbv [call2 compare_call ret fst]. now rewrite Hlt.
  - intros Hlt Heq. cbv [call2 compare_call ret fst]. now rewrite Hlt, Heq.
  - intros Hlt Heq. cbv [call2 compare_call ret fst]. now rewrite Hlt, Heq.
Qed.

(** ** Argument binders *)

(** C6.  [bind1st(f,v)(x) == f(v,x)] and [bind2nd(f,v)(x) == f(x,v)], as
    whole calls; and wherever the binder instantiates, its tag is the unary
    one, the argument type it declares is the argument type of [f] that was
    not bound, and the result type it declares, which is also the type its
    call operator returns, is the result type of [f]. *)
Theorem binder_laws :
  (forall (BinaryFunction arg1_t arg2_t result_t : Type)
          (C : Callable2 BinaryFunction arg1_t arg2_t result_t)
          (f : BinaryFunction) (v1 : arg1_t) (v2 : arg2_t) (w : World),
      call1 (bind1st f v1) v2 w = call2 f v1 v2 w /\
      call1 (bind2nd f v2) v1 w = call2 f v1 v2 w) /\
  (forall (BF d : Decl.class_decl),
      Decl.binder1st BF = Some d ->
      Decl.tag_arity (Decl.base d) = 1%nat /\
      Decl.member d Decl.argument_type = Decl.member BF Decl.second_argument_type /\
      Decl.member d Decl.result_type = Decl.member BF Decl.result_type /\
      Decl.member BF Decl.result_type = Some (Decl.call_result d)) /\
  (forall (BF d : Decl.class_decl),
      Decl.binder2nd BF = Some d ->
      Decl.tag_arity (Decl.base d) = 1%nat /\
      Decl.member d Decl.argument_type = Decl.member BF Decl.first_argument_type /\
      Decl.member d Decl.result_type = Decl.member BF Decl.result_type /\
      Decl.member BF Decl.result_type = Some (Decl.call_result d)).
Proof.
  split; [| split].
  - intros. split; reflexivity.
  - intros BF d. unfold Decl.binder1st. instantiated. repeat split.
  - intros BF d. unfold Decl.binder2nd. instantiated. repeat split.
Qed.

(** ** Negator *)

(** C7.  For [f] returning [bool], [unary_negator(f)(x) == !f(x)]: the
    result is the negation of the result of [f], and the world is the one
    [f] leaves.  Wherever [unary_negate] instantiates, the argument type and
    the result type it declares are the ones [f] declares. *)
Theorem negator_law :
  (forall (UnaryFunction Arg : Type) (C : Callable1 UnaryFunction Arg bool)
          (f : UnaryFunction) (x : Arg) (w : World),
      call1 (unary_negator f) x w =
        (negb (fst (call1 f x w)), snd (call1 f x w))) /\
  (forall (UF d : Decl.class_decl),
      Decl.unary_negate UF = Some d ->
      Decl.member d Decl.argument_type = Decl.member UF Decl.argument_type /\
      Decl.member d Decl.result_type = Decl.member UF Decl.result_type).
Proof.
  split.
  - intros. cbv [call1 unary_negate_call unary_negator unary_negate_m_pfn bind ret].
    destruct (C f x w) as [r w1]. reflexivity.
  - intros UF d. unfold Decl.unary_negate. instantiated. split; reflexivity.
Qed.

(** ** Function pointers *)

(** C8.  [functor(pfn)(x) == pfn(x)] for a pointer to a function of one
    argument and [functor(pfn)(x,y) == pfn(x,y)] for one of two arguments;
    [functor(square)(4) == 16]. *)
Theorem functor_wraps_pointer :
  (forall (Arg Result : Type) (pfn : fn_ptr1 Arg Result) (x : Arg) (w : World),
      call1 (functor pfn) x w = pfn x w) /\
  (forall (Arg1 Arg2 Result : Type) (pfn : fn_ptr2 Arg1 Arg2 Result)
          (x : Arg1) (y : Arg2) (w : World),
      call2 (functor_binary pfn) x y w = pfn x y w) /\
  (forall w : World, call1 (functor square) 4 w = (16, w)).
Proof.
  repeat split.
Qed.

(** ** Logical functors *)

(** C10, as the code has it.  On an integral [T], [logical_and<T>] returns 1
    when both operands are not zero and 0 otherwise, [logical_or<T>] returns
    1 when one of the operands is not zero and 0 otherwise.  The result is
    thus always 0 or 1, and it coincides with an operand only when that
    operand is itself 0 or 1. *)
Theorem logical_and_or_normalised :
  forall (land : logical_and Z) (lor : logical_or Z) (a b : Z) (w : World),
    call2 land a b w = (if negb (a =? 0) && negb (b =? 0) then 1 else 0, w) /\
    call2 lor a b w = (if negb (a =? 0) || negb (b =? 0) then 1 else 0, w) /\
    (fst (call2 land a b w) = 1 <-> a <> 0 /\ b <> 0) /\
    (fst (call2 land a b w) = 0 <-> ~ (a <> 0 /\ b <> 0)) /\
    (fst (call2 lor a b w) = 1 <-> a <> 0 \/ b <> 0) /\
    (fst (call2 lor a b w) = 0 <-> ~ (a <> 0 \/ b <> 0)) /\
    (fst (call2 land a b w) = a -> a = 0 \/ a = 1) /\
    (fst (call2 land a b w) = b -> b = 0 \/ b = 1) /\
    (fst (call2 lor a b w) = a -> a = 0 \/ a = 1) /\
    (fst (call2 lor a b w) = b -> b = 0 \/ b = 1).
Proof.
  intros land lor a b w.
  cbv [call2 logical_and_call logical_or_call ret fst to_bool from_bool
       integral_BoolConv].
  destruct (Z.eqb_spec a 0) as [Ha|Ha], (Z.eqb_spec b 0) as [Hb|Hb]; simpl;
    repeat match goal with |- _ /\ _ => split | |- _ <-> _ => split end;
    try reflexivity; intros; try lia; tauto.
Qed.

(** ** Referential transparency *)

(** C9, as the code has it.  Every call operator is [const], and the call of
    every adaptor is one call of what it wraps, on the bound or extracted
    arguments, with the result handed through (negated by the negator):
    the adaptor adds no effect and keeps no state of its own.  So where the
    wrapped call is read-only, two adaptors built from identical inputs and
    called with identical arguments, one after the other, give the same
    result and leave the world as it was.  A reference bound by a binder is
    read again at every call.  The convenience compositions wrap only
    [equal_to] and [less] and repeat without condition. *)
Theorem adaptors_referentially_transparent :
  (forall (Arg Result : Type) (pfn : fn_ptr1 Arg Result) (x : Arg),
      relays (call1 (functor pfn) x) (pfn x)) /\
  (forall (Arg1 Arg2 Result : Type) (pfn : fn_ptr2 Arg1 Arg2 Result)
          (x : Arg1) (y : Arg2),
      relays (call2 (functor_binary pfn) x y) (pfn x y)) /\
  (forall (UnaryFunction Arg Result : Type)
          (C : Callable1 UnaryFunction Arg Result) (B : BoolConv Result)
          (f : UnaryFunction) (x : Arg),
      relays (call1 (unary_negator f) x)
             (post (fun r => from_bool (negb (to_bool r))) (call1 f x))) /\
  (forall (BinaryFunction arg1_t first_t arg2_t result_t : Type)
          (C : Callable2 BinaryFunction first_t arg2_t result_t)
          (S : Stored arg1_t first_t)
          (f : BinaryFunction) (v : arg1_t) (x : arg2_t),
      relays (call1 (bind1st f v) x) (fun w => call2 f (load v w) x w)) /\
  (forall (BinaryFunction arg1_t arg2_t second_t result_t : Type)
          (C : Callable2 BinaryFunction arg1_t second_t result_t)
          (S : Stored arg2_t second_t)
          (f : BinaryFunction) (v : arg2_t) (x : arg1_t),
      relays (call1 (bind2nd f v) x) (fun w => call2 f x (load v w) w)) /\
  (forall (Ret TPtr : Type) (pf : TPtr -> Eff Ret) (p : TPtr),
      relays (call1 (mem_fun pf) p) (pf p) /\
      relays (call1 (mem_fun_const pf) p) (pf p)) /\
  (forall (HostType ArgType Ret : Type) (t : HostType)
          (pf : HostType -> ArgType -> Eff Ret) (v : ArgType),
      relays (call1 (mem_fun_ext t pf) v) (pf t v)) /\
  (forall (UnaryFunction T VT Result : Type)
          (C : Callable1 UnaryFunction VT Result)
          (m : mem_var_ptr_t T VT) (f : UnaryFunction) (obj : T),
      relays (call1 (mem_var1 m f) obj) (call1 f (m obj)) /\
      relays (call1 (const_mem_var1 m f) obj) (call1 f (m obj))) /\
  (forall (BinaryFunction T VT Result : Type)
          (C : Callable2 BinaryFunction VT VT Result)
          (m : mem_var_ptr_t T VT) (f : BinaryFunction) (x y : T),
      relays (call2 (mem_var2 m f) x y) (call2 f (m x) (m y)) /\
      relays (call2 (const_mem_var2 m f) x y) (call2 f (m x) (m y))) /\
  (forall (T VT : Type) (C : Comparable VT) (m : mem_var_ptr_t T VT)
          (v : VT) (obj x y : T),
      repeats (call1 (mem_var_equal_to m v) obj) /\
      repeats (call1 (mem_var_less m v) obj) /\
      repeats (call2 (mem_var_equal_to_pair m) x y) /\
      repeats (call2 (mem_var_less_pair m) x y)).
Proof.
  repeat match goal with |- _ /\ _ => split end.
  - intros. now apply relays_same.
  - intros. now apply relays_same.
  - intros. apply relays_same. intros w.
    cbv [call1 unary_negate_call unary_negator unary_negate_m_pfn
         bind ret post].
    destruct (C f x w) as [r w1]. reflexivity.
  - intros. now apply relays_same.
  - intros. now apply relays_same.
  - intros. split; now apply relays_same.
  - intros. now apply relays_same.
  - intros. split; now apply relays_same.
  - intros. split; now apply relays_same.
  - intros. repeat split.
Qed.

End Laws.

(** * Declarations: signature tags and instance access *)

Lemma ctype_eqb_refl (t : Decl.ctype) : Decl.ctype_eqb t t = true.
Proof.
  induction t; simpl; try reflexivity; try assumption.
  apply String.eqb_refl.
Qed.

Lemma passes_same (a : Decl.ctype) : Decl.passes a a = true.
Proof. unfold Decl.passes. now rewrite ctype_eqb_refl. Qed.

Lemma passes_const_ref (a : Decl.ctype) : Decl.passes a (Decl.const_ref a) = true.
Proof. unfold Decl.passes. rewrite (ctype_eqb_refl (Decl.const_ref a)). apply orb_true_r. Qed.

(** X17.  The classes whose tag is the one of their call operator, for all
    template arguments they instantiate with: the standard functors, the
    function pointer converters, the negator, the binders, the plain method
    adaptors, the adaptors of a member of one instance and the const adaptor
    of a member over two instances. *)
Lemma conforming_classes :
  (forall T R, Decl.tag_matches_call (Decl.binary_functor T R) = true) /\
  (forall T R, Decl.tag_matches_call (Decl.unary_functor T R) = true) /\
  (forall A R, Decl.tag_matches_call (Decl.functor1 A R) = true) /\
  (forall A1 A2 R, Decl.tag_matches_call (Decl.functor2 A1 A2 R) = true) /\
  (forall UF d, Decl.unary_negate UF = Some d -> Decl.tag_matches_call d = true) /\
  (forall BF d, Decl.binder1st BF = Some d -> Decl.tag_matches_call d = true) /\
  (forall BF d, Decl.binder2nd BF = Some d -> Decl.tag_matches_call d = true) /\
  (forall A Ret, Decl.tag_matches_call (Decl.MEM_FUN_T A Ret) = true) /\
  (forall UF T VT d, Decl.mem_var1_t UF T VT = Some d ->
                     Decl.tag_matches_call d = true) /\
  (forall UF T VT d, Decl.const_mem_var1_t UF T VT = Some d ->
                     Decl.tag_matches_call d = true) /\
  (forall BF T VT d, Decl.const_mem_var2_t BF T VT = Some d ->
                     Decl.tag_matches_call d = true).
Proof.
  repeat match goal with |- _ /\ _ => split end.
  - intros. cbn. now rewrite !passes_const_ref, ctype_eqb_refl.
  - intros. cbn. now rewrite !passes_const_ref, ctype_eqb_refl.
  - intros. cbn. now rewrite !passes_same, ctype_eqb_refl.
  - intros. cbn. now rewrite !passes_same, ctype_eqb_refl.
  - intros UF d. unfold Decl.unary_negate. instantiated. cbn.
    now rewrite passes_const_ref, ctype_eqb_refl.
  - intros BF d. unfold Decl.binder1st. instantiated. cbn.
    now rewrite passes_const_ref, ctype_eqb_refl.
  - intros BF d. unfold Decl.binder2nd. instantiated. cbn.
    now rewrite passes_const_ref, ctype_eqb_refl.
  - intros. cbn. now rewrite passes_same, ctype_eqb_refl.
  - intros UF T VT d. unfold Decl.mem_var1_t. instantiated. cbn.
    now rewrite (passes_same (Decl.Ref T)), ctype_eqb_refl.
  - intros UF T VT d. unfold Decl.const_mem_var1_t. instantiated. cbn.
    now rewrite (passes_same (Decl.ConstRef T)), ctype_eqb_refl.
  - intros BF T VT d. unfold Decl.const_mem_var2_t. instantiated. cbn.
    now rewrite (passes_same (Decl.ConstRef T)), ctype_eqb_refl.
Qed.

(** Whatever it is instantiated with, [mem_var2_t] carries the unary tag on a
    call operator of two arguments. *)
Lemma mem_var2_t_tag_is_unary (BF : Decl.class_decl) (T VT : Decl.ctype)
  (d : Decl.class_decl) :
  Decl.mem_var2_t BF T VT = Some d ->
  Decl.tag_arity (Decl.base d) = 1%nat /\ Decl.call_arity d = 2%nat /\
  Decl.tag_matches_call d = false.
Proof.
  unfold Decl.mem_var2_t. instantiated. repeat split.
Qed.

(** C4, at [mem_var2(&Point::y, less<int>())] and at the four extended
    method adaptors over a method of [Host] from [int] to [int].  [mem_var2_t]
    derives from [unary_function<Point&,bool>] and is called with two
    arguments, while its sibling [const_mem_var2_t] derives from
    [binary_function]; the extended method adaptors declare the result type
    [void] and return [int], while the plain method adaptors declare
    [Ret]. *)
Theorem signature_tag_violations :
  let Point := Decl.ClassType "Point" in
  let Host := Decl.ClassType "Host" in
  (exists d,
      Decl.mem_var2_t (Decl.less Decl.Int) Point Decl.Int = Some d /\
      Decl.base d = Decl.unary_function (Decl.Ref Point) Decl.Bool /\
      Decl.member d Decl.first_argument_type = None /\
      Decl.call_params d = [Decl.Ref Point; Decl.Ref Point] /\
      Decl.tag_arity (Decl.base d) = 1%nat /\ Decl.call_arity d = 2%nat /\
      Decl.tag_matches_call d = false) /\
  (exists d,
      Decl.const_mem_var2_t (Decl.less Decl.Int) Point Decl.Int = Some d /\
      Decl.base d =
        Decl.binary_function (Decl.ConstRef Point) (Decl.ConstRef Point) Decl.Bool /\
      Decl.tag_matches_call d = true) /\
  (forall c,
      In c [Decl.ext_mem_fun_t Host Decl.Int Decl.Int;
            Decl.ext_mem_funbv_t Host Decl.Int Decl.Int;
            Decl.const_ext_mem_fun_t Host Decl.Int Decl.Int;
            Decl.const_ext_mem_funbv_t Host Decl.Int Decl.Int] ->
      Decl.member c Decl.result_type = Some Decl.Void /\
      Decl.call_result c = Decl.Int /\
      Decl.tag_matches_call c = false) /\
  Decl.tag_matches_call (Decl.mem_fun_t Decl.Int Host) = true /\
  Decl.member (Decl.mem_fun_t Decl.Int Host) Decl.result_type = Some Decl.Int.
Proof.
  cbv zeta. repeat match goal with |- _ /\ _ => split end.
  - eexists. repeat split.
  - eexists. repeat split.
  - intros c Hc. simpl in Hc.
    repeat (destruct Hc as [<- | Hc]; [repeat split |]). contradiction.
  - reflexivity.
  - reflexivity.
Qed.

(** C5 as the specification has it, refuted: of the two adaptors of a member
    over two instances, [mem_var2_t] takes both instances by [T&]. *)
Lemma member2_has_mutable_variant :
  ~ (forall (BF : Decl.class_decl) (T VT : Decl.ctype) (c : Decl.class_decl),
        In (Some c) (Decl.member2_variants BF T VT) ->
        forallb Decl.read_only_access (Decl.call_params c) = true).
Proof.
  intros H.
  specialize (H (Decl.less Decl.Int) (Decl.ClassType "Point") Decl.Int _
                (or_introl eq_refl)).
  discriminate H.
Qed.

(** C5, as the code has it.  The adaptor of a member over two instances
    comes in both variants: [mem_var2_t] (built by [mem_var2]) takes the two
    instances by reference, [const_mem_var2_t] (built by [const_mem_var2])
    by reference to const; the convenience compositions without a value
    are built on the const variant. *)
Theorem member2_both_variants :
  forall (BF : Decl.class_decl) (T VT r : Decl.ctype),
    Decl.member BF Decl.result_type = Some r ->
    (exists dm dc,
        Decl.member2_variants BF T VT = [Some dm; Some dc] /\
        Decl.call_params dm = [Decl.Ref T; Decl.Ref T] /\
        forallb Decl.read_only_access (Decl.call_params dm) = false /\
        Decl.call_params dc = [Decl.ConstRef T; Decl.ConstRef T] /\
        forallb Decl.read_only_access (Decl.call_params dc) = true) /\
    (forall (C VT' : Type) (m : mem_var_ptr_t C VT'),
        mem_var_equal_to_pair m = const_mem_var2 m (@mk_equal_to VT') /\
        mem_var_less_pair m = const_mem_var2 m (@mk_less VT')).
Proof.
  intros BF T VT r Hr. split.
  - unfold Decl.member2_variants, Decl.mem_var2_t, Decl.const_mem_var2_t.
    rewrite Hr. do 2 eexists. repeat split.
  - intros. split; reflexivity.
Qed.

(** The extended method adaptors declare [void] whatever the method
    returns. *)
Lemma ext_mem_fun_declares_void (ArgType Ret V : Decl.ctype) :
  Decl.member (Decl.EXT_MEM_FUN_T ArgType Ret V) Decl.result_type = Some Decl.Void /\
  Decl.call_result (Decl.EXT_MEM_FUN_T ArgType Ret V) = Ret.
Proof. split; reflexivity. Qed.

(** * The laws at work *)

(** [greater_equal] is [b < a || a == b] and not [!(a < b)]: on unordered
    values the two differ. *)
Remark greater_equal_is_not_negated_less :
  let a : option Z := None in
  let b : option Z := Some 0 in
  fst (call2 (Callable2:=@greater_equal_call unit _ unordered_Comparable)
             (@mk_greater_equal (option Z)) a b tt) = false /\
  negb (@op_lt _ unordered_Comparable a b) = true.
Proof. split; reflexivity. Qed.

(** [logical_and<bool>] and [logical_or<bool>] are [&&] and [||]. *)
Remark logical_and_or_bool (a b : bool) :
  call2 (World:=unit) (@mk_logical_and bool) a b tt = (a && b, tt) /\
  call2 (World:=unit) (@mk_logical_or bool) a b tt = (a || b, tt).
Proof. split; reflexivity. Qed.

(** The method adaptor over [isEven], applied to a pointer to an object
    holding 7, answers [false]; negated, it answers [true]; the memory stays
    as it was. *)
Remark isEven_scenario :
  let mem : memory := fun _ => 7 in
  fst (call1 (mem_fun_const isEven) 0%nat mem) = false /\
  fst (call1 (unary_negator (mem_fun_const isEven)) 0%nat mem) = true /\
  snd (call1 (unary_negator (mem_fun_const isEven)) 0%nat mem) = mem.
Proof. repeat split. Qed.

(** An adaptor adds no state but hides none either: over a function that
    counts its calls, two calls of [functor(tick)] differ. *)
Remark functor_passes_effects_on :
  twice (call1 (functor tick) tt) (call1 (functor tick) tt) 0%nat
  = ((0%nat, 1%nat), 2%nat).
Proof. reflexivity. Qed.

(** C9 as stated, refuted: [functor(tick)] built twice from the same
    pointer and called twice with the same argument answers 0, then 1. *)
Lemma successive_calls_may_differ :
  ~ (forall (pfn : @fn_ptr1 nat unit nat) (x : unit) (w : nat),
        fst (fst (twice (call1 (functor pfn) x) (call1 (functor pfn) x) w))
        = snd (fst (twice (call1 (functor pfn) x) (call1 (functor pfn) x) w))).
Proof.
  intros H. specialize (H tick tt 0%nat). discriminate H.
Qed.

(** A binder over [const_mem_var2_t] binds its value by reference: the
    bound point is read at every call, so the answer follows the point as
    it changes, where a binder holding a copy keeps answering for the
    copy. *)
Remark bound_reference_is_read_at_each_call :
  let g := bind2nd (mem_var_less_pair Point_y) bound_point in
  let g_copy := bind2nd (mem_var_less_pair Point_y) (mk_Point 3 7) in
  value1 g p1 (mk_Point 3 7) = true /\
  value1 g p1 (mk_Point 3 2) = false /\
  value1 g_copy p1 (mk_Point 3 7) = true /\
  value1 g_copy p1 (mk_Point 3 2) = true.
Proof. repeat split. Qed.

(** C10 as stated, refuted: [logical_and<int>()(1, 1)] is 1, the value of
    both operands. *)
Lemma logical_and_may_equal_operand :
  ~ (forall a b : Z,
        fst (call2 (World:=unit) (@mk_logical_and Z) a b tt) <> a /\
        fst (call2 (World:=unit) (@mk_logical_and Z) a b tt) <> b).
Proof.
  intros H. destruct (H 1 1) as [Ha _]. apply Ha. reflexivity.
Qed.

Lemma comparator_family_witness :
  @op_lt int _ 1 2 = true /\
  fst (call2 (World:=unit) (@mk_compare int) 1 2 tt) = -1.
Proof.
  split; [reflexivity |].
  apply (proj1 (proj2 (proj2 (proj2 (proj2 (proj2 (proj2 (proj2
           (@comparator_family unit int _ 1 2 tt))))))))).
  reflexivity.
Defined.

Lemma logical_and_or_normalised_witness :
  fst (call2 (World:=unit) (@mk_logical_and Z) 2 3 tt) = 1 /\
  (fst (call2 (World:=unit) (@mk_logical_and Z) 1 7 tt) = 1 -> 1 = 0 \/ 1 = 1).
Proof.
  split.
  - apply (proj1 (proj2 (proj2 (@logical_and_or_normalised unit mk_logical_and mk_logical_or 2 3 tt)))).
    split; discriminate.
  - apply (proj1 (proj2 (proj2 (proj2 (proj2 (proj2 (proj2
             (@logical_and_or_normalised unit mk_logical_and mk_logical_or 1 7 tt)))))))).
Defined.

Lemma binder_laws_witness :
  let d1 := Decl.mk_class (Decl.unary_function Decl.Int Decl.Bool)
              [(Decl.arg1_t, Decl.Int); (Decl.arg2_t, Decl.Int);
               (Decl.result_t, Decl.Bool)]
              [Decl.ConstRef Decl.Int] Decl.Bool in
  Decl.binder1st (Decl.less Decl.Int) = Some d1 /\
  Decl.binder2nd (Decl.less Decl.Int) = Some d1 /\
  Decl.member d1 Decl.argument_type = Some Decl.Int /\
  Decl.member d1 Decl.result_type = Some Decl.Bool /\
  call1 (World:=unit) (bind1st (@mk_less int) 3) 5 tt = (true, tt) /\
  call1 (World:=unit) (bind2nd (@mk_less int) 3) 5 tt = (false, tt).
Proof.
  cbv zeta.
  destruct (@binder_laws unit) as (Hcall & H1st & H2nd).
  repeat match goal with |- _ /\ _ => split end.
  - reflexivity.
  - reflexivity.
  - exact (proj1 (proj2 (H1st (Decl.less Decl.Int) _ eq_refl))).
  - exact (proj1 (proj2 (proj2 (H2nd (Decl.less Decl.Int) _ eq_refl)))).
  - exact (proj1 (Hcall _ _ _ _ _ (@mk_less int) 3 5 tt)).
  - exact (proj2 (Hcall _ _ _ _ _ (@mk_less int) 5 3 tt)).
Defined.

Lemma negator_law_witness :
  let d := Decl.mk_class (Decl.unary_function Decl.Int Decl.Bool)
             [(Decl.argument_type, Decl.Int); (Decl.result_type, Decl.Bool)]
             [Decl.ConstRef Decl.Int] Decl.Bool in
  Decl.unary_negate (Decl.functor1 Decl.Int Decl.Bool) = Some d /\
  Decl.member d Decl.argument_type = Some Decl.Int /\
  Decl.member d Decl.result_type = Some Decl.Bool /\
  call1 (World:=unit) (unary_negator (mem_var_equal_to Point_x 3)) p1 tt
  = (false, tt).
Proof.
  cbv zeta.
  destruct (@negator_law unit) as (Hcall & Hdecl).
  repeat match goal with |- _ /\ _ => split end.
  - reflexivity.
  - exact (proj1 (Hdecl (Decl.functor1 Decl.Int Decl.Bool) _ eq_refl)).
  - exact (proj2 (Hdecl (Decl.functor1 Decl.Int Decl.Bool) _ eq_refl)).
  - exact (Hcall _ _ _ (mem_var_equal_to Point_x 3) p1 tt).
Defined.

Lemma adaptors_referentially_transparent_witness :
  let mem : memory := fun _ => 7 in
  read_only (isEven 0%nat) /\
  twice (call1 (mem_fun_const isEven) 0%nat)
        (call1 (mem_fun_const isEven) 0%nat) mem
  = ((false, false), mem) /\
  read_only (post (fun r : bool => from_bool (negb (to_bool r)))
                  (call1 (mem_fun_const isEven) 0%nat)) /\
  twice (call1 (unary_negator (mem_fun_const isEven)) 0%nat)
        (call1 (unary_negator (mem_fun_const isEven)) 0%nat) mem
  = ((true, true), mem).
Proof.
  cbv zeta.
  destruct (@adaptors_referentially_transparent memory)
    as (_ & _ & Hneg & _ & _ & Hmem & _).
  repeat match goal with |- _ /\ _ => split end.
  - intros w. reflexivity.
  - exact (proj2 (proj2 (Hmem bool nat isEven 0%nat))
             (fun w => eq_refl) (fun _ => 7)).
  - intros w. reflexivity.
  - exact (proj2 (Hneg _ _ _ _ _ (mem_fun_const isEven) 0%nat)
             (fun w => eq_refl) (fun _ => 7)).
Defined.

Lemma member2_both_variants_witness :
  Decl.member (Decl.less Decl.Int) Decl.result_type = Some Decl.Bool /\
  exists dm dc,
    Decl.member2_variants (Decl.less Decl.Int) (Decl.ClassType "Point") Decl.Int
    = [Some dm; Some dc] /\
    Decl.call_params dm = [Decl.Ref (Decl.ClassType "Point"); Decl.Ref (Decl.ClassType "Point")] /\
    forallb Decl.read_only_access (Decl.call_params dm) = false /\
    Decl.call_params dc
    = [Decl.ConstRef (Decl.ClassType "Point"); Decl.ConstRef (Decl.ClassType "Point")] /\
    forallb Decl.read_only_access (Decl.call_params dc) = true.
Proof.
  split; [reflexivity |].
  exact (proj1 (member2_both_variants (Decl.less Decl.Int) (Decl.ClassType "Point")
                  Decl.Int Decl.Bool eq_refl)).
Defined.

(** * Further properties of the header *)

Lemma int_trichotomous : trichotomous int.
Proof.
  intros a b. cbn.
  destruct (Z.ltb_spec a b), (Z.eqb_spec a b), (Z.ltb_spec b a);
    try lia; auto.
Qed.

Lemma int_strict_order : strict_order int.
Proof.
  split; cbn.
  - intros a. apply Z.ltb_irrefl.
  - intros a b c Hab Hbc. apply Z.ltb_lt in Hab, Hbc. apply Z.ltb_lt. lia.
Qed.

Lemma int_equivalence_eq : equivalence_eq int.
Proof.
  repeat split; cbn.
  - intros a. apply Z.eqb_refl.
  - intros a b Hab. apply Z.eqb_eq in Hab. apply Z.eqb_eq. lia.
  - intros a b c Hab Hbc. apply Z.eqb_eq in Hab, Hbc. apply Z.eqb_eq. lia.
Qed.

Lemma integral_bool_retract : bool_retract Z.
Proof. intros [|]; reflexivity. Qed.

Section Compositions.

Context {World : Type}.

Local Abbreviation Eff := (@Eff World).
Local Abbreviation fn_ptr1 := (@fn_ptr1 World).
Local Abbreviation fn_ptr2 := (@fn_ptr2 World).
Local Abbreviation Callable1 := (@Callable1 World).
Local Abbreviation Callable2 := (@Callable2 World).

(** ** Negators *)

(** X1.  Negating twice: over a callable returning [bool],
    [unary_negator(unary_negator(f))] is [f] again, result and effect.  Over
    any result type that converts from [bool] and back without loss, a third
    negation gives the first one; the effect is that of one call of [f]
    throughout. *)
Theorem negation_twice :
  (forall (UnaryFunction Arg : Type) (C : Callable1 UnaryFunction Arg bool)
          (f : UnaryFunction) (x : Arg) (w : World),
      call1 (unary_negator (unary_negator f)) x w = call1 f x w) /\
  (forall (UnaryFunction Arg Result : Type)
          (C : Callable1 UnaryFunction Arg Result) (B : BoolConv Result)
          (f : UnaryFunction) (x : Arg) (w : World),
      bool_retract Result ->
      call1 (unary_negator (unary_negator (unary_negator f))) x w
      = call1 (unary_negator f) x w /\
      snd (call1 (unary_negator (unary_negator f)) x w) = snd (call1 f x w) /\
      value1 (unary_negator (unary_negator f)) x w
      = from_bool (to_bool (value1 f x w))).
Proof.
  split.
  - intros.
    cbv [call1 unary_negate_call unary_negator unary_negate_m_pfn bind ret
         to_bool from_bool bool_BoolConv].
    destruct (C f x w) as [r w1]. now rewrite negb_involutive.
  - intros UnaryFunction Arg Result C B f x w Hr.
    cbv [value1 call1 unary_negate_call unary_negator unary_negate_m_pfn
         bind ret].
    destruct (C f x w) as [r w1]. cbn [fst snd].
    rewrite !Hr, !negb_involutive. repeat split.
Qed.

(** X2.  Negating an equality test is the inequality test:
    [unary_negator(bind2nd(equal_to<T>(), v))] and
    [bind2nd(not_equal_to<T>(), v)] are the same call, and
    [unary_negator(mem_var_equal_to(m, v))(obj)] answers [!(obj.m == v)]. *)
Theorem negated_equality :
  forall (T VT : Type) (C : Comparable VT) (m : mem_var_ptr_t T VT)
         (v x : VT) (obj : T) (w : World),
    call1 (unary_negator (bind2nd (@mk_equal_to VT) v)) x w
    = call1 (bind2nd (@mk_not_equal_to VT) v) x w /\
    call1 (unary_negator (bind1st (@mk_equal_to VT) v)) x w
    = call1 (bind1st (@mk_not_equal_to VT) v) x w /\
    call1 (unary_negator (mem_var_equal_to m v)) obj w
    = (negb (op_eq (m obj) v), w) /\
    call1 (unary_negator (mem_var_equal_to m v)) obj w
    = call1 (const_mem_var1 m (bind2nd (@mk_not_equal_to VT) v)) obj w.
Proof.
  intros. repeat split.
Qed.

(** ** Binders over the comparison functors *)

(** X3.  [greater] is [less] with the arguments exchanged, so binding the
    first argument of one is binding the second argument of the other:
    [bind1st(less<T>(), v)] and [bind2nd(greater<T>(), v)] both answer
    [v < x], [bind1st(greater<T>(), v)] and [bind2nd(less<T>(), v)] both
    answer [x < v]. *)
Theorem binder_duality :
  forall (T : Type) (C : Comparable T) (v x : T) (w : World),
    call1 (bind1st (@mk_less T) v) x w = call1 (bind2nd (@mk_greater T) v) x w /\
    call1 (bind1st (@mk_greater T) v) x w = call1 (bind2nd (@mk_less T) v) x w /\
    call1 (bind1st (@mk_less T) v) x w = (op_lt v x, w) /\
    call1 (bind2nd (@mk_less T) v) x w = (op_lt x v, w) /\
    call2 (@mk_greater T) v x w = call2 (@mk_less T) x v w.
Proof.
  intros. repeat split.
Qed.

(** X4.  Where exactly one of [a < b], [a == b], [b < a] holds,
    [greater_equal] is the negation of [less], [less_equal] the negation of
    [greater], and [not_equal_to] is [less] or [greater]. *)
Theorem comparators_on_total_order :
  forall (T : Type) (C : Comparable T),
    trichotomous T ->
    forall (a b : T) (w : World),
      value2 (@mk_greater_equal T) a b w = negb (value2 (@mk_less T) a b w) /\
      value2 (@mk_less_equal T) a b w = negb (value2 (@mk_greater T) a b w) /\
      value2 (@mk_not_equal_to T) a b w
      = value2 (@mk_less T) a b w || value2 (@mk_greater T) a b w.
Proof.
  intros T C Htri a b w.
  cbv [value2 call2 greater_equal_call less_equal_call less_call greater_call
       not_equal_to_call ret fst].
  destruct (Htri a b) as [(-> & -> & ->) | [(-> & -> & ->) | (-> & -> & ->)]];
    repeat split.
Qed.

(** X5.  [compare] answers -1, 0 or 1 and nothing else; on a [T] where
    exactly one of [a < b], [a == b], [b < a] holds it is antisymmetric,
    [compare(b,a) == -compare(a,b)], it is 0 exactly when [equal_to] holds,
    -1 exactly when [less] holds and 1 exactly when [greater] holds. *)
Theorem compare_three_way :
  forall (T : Type) (C : Comparable T),
    trichotomous T ->
    forall (a b : T) (w : World),
      (value2 (@mk_compare T) a b w = -1 \/
       value2 (@mk_compare T) a b w = 0 \/
       value2 (@mk_compare T) a b w = 1) /\
      value2 (@mk_compare T) b a w = - value2 (@mk_compare T) a b w /\
      (value2 (@mk_compare T) a b w = 0 <-> value2 (@mk_equal_to T) a b w = true) /\
      (value2 (@mk_compare T) a b w = -1 <-> value2 (@mk_less T) a b w = true) /\
      (value2 (@mk_compare T) a b w = 1 <-> value2 (@mk_greater T) a b w = true).
Proof.
  intros T C Htri a b w.
  cbv [value2 call2 compare_call equal_to_call less_call greater_call ret fst].
  destruct (Htri a b) as [(Hab & Heq & Hba) | [(Hab & Heq & Hba) | (Hab & Heq & Hba)]];
    destruct (Htri b a) as [(Hba' & Heq' & Hab') | [(Hba' & Heq' & Hab') | (Hba' & Heq' & Hab')]];
    try congruence;
    repeat match goal with E : _ = _ |- _ => rewrite E; clear E end;
    repeat match goal with |- _ /\ _ => split | |- _ <-> _ => split end;
    auto; try reflexivity; intros; try discriminate; try lia.
Qed.

(** ** Comparing objects by a member *)

(** X6.  The comparators of a member inherit the order of the member's
    type: where [<] is a strict order on [VT], [mem_var_less(m)] never
    places an object before itself, never places two objects before each
    other, and is transitive; where [==] is an equivalence on [VT],
    [mem_var_equal_to(m)] is reflexive, symmetric and transitive on the
    objects. *)
Theorem member_comparators_inherit_order :
  forall (T VT : Type) (C : Comparable VT) (m : mem_var_ptr_t T VT),
    (strict_order VT ->
     forall (x y z : T) (w : World),
       value2 (mem_var_less_pair m) x x w = false /\
       (value2 (mem_var_less_pair m) x y w = true ->
        value2 (mem_var_less_pair m) y x w = false) /\
       (value2 (mem_var_less_pair m) x y w = true ->
        value2 (mem_var_less_pair m) y z w = true ->
        value2 (mem_var_less_pair m) x z w = true)) /\
    (equivalence_eq VT ->
     forall (x y z : T) (w : World),
       value2 (mem_var_equal_to_pair m) x x w = true /\
       (value2 (mem_var_equal_to_pair m) x y w = true ->
        value2 (mem_var_equal_to_pair m) y x w = true) /\
       (value2 (mem_var_equal_to_pair m) x y w = true ->
        value2 (mem_var_equal_to_pair m) y z w = true ->
        value2 (mem_var_equal_to_pair m) x z w = true)).
Proof.
  intros T VT C m. split.
  - intros [Hirr Htrans] x y z w.
    change (op_lt (m x) (m x) = false /\
            (op_lt (m x) (m y) = true -> op_lt (m y) (m x) = false) /\
            (op_lt (m x) (m y) = true -> op_lt (m y) (m z) = true ->
             op_lt (m x) (m z) = true)).
    split; [apply Hirr | split].
    + intros Hxy. destruct (op_lt (m y) (m x)) eqn:Hyx; [| reflexivity].
      rewrite <- (Hirr (m x)). symmetry. now apply (Htrans _ (m y)).
    + apply Htrans.
  - intros (Hrefl & Hsym & Htrans) x y z w.
    change (op_eq (m x) (m x) = true /\
            (op_eq (m x) (m y) = true -> op_eq (m y) (m x) = true) /\
            (op_eq (m x) (m y) = true -> op_eq (m y) (m z) = true ->
             op_eq (m x) (m z) = true)).
    split; [apply Hrefl | split]; [apply Hsym | apply Htrans].
Qed.

(** X7.  Member adaptors nest: an adaptor of member [m1] around an adaptor
    of member [m2] hands [f] the member [m2] of the member [m1] of the
    object, [f(obj.m1.m2)]; for the adaptors of two instances,
    [f(x.m1.m2, y.m1.m2)]. *)
Theorem nested_member_access :
  (forall (UnaryFunction T VT VT2 Result : Type)
          (C : Callable1 UnaryFunction VT2 Result)
          (m1 : mem_var_ptr_t T VT) (m2 : mem_var_ptr_t VT VT2)
          (f : UnaryFunction) (obj : T) (w : World),
      call1 (const_mem_var1 m1 (const_mem_var1 m2 f)) obj w
      = call1 f (m2 (m1 obj)) w /\
      call1 (mem_var1 m1 (mem_var1 m2 f)) obj w = call1 f (m2 (m1 obj)) w) /\
  (forall (BinaryFunction T VT VT2 Result : Type)
          (C : Callable2 BinaryFunction VT2 VT2 Result)
          (m1 : mem_var_ptr_t T VT) (m2 : mem_var_ptr_t VT VT2)
          (f : BinaryFunction) (x y : T) (w : World),
      call2 (const_mem_var2 m1 (const_mem_var2 m2 f)) x y w
      = call2 f (m2 (m1 x)) (m2 (m1 y)) w /\
      call2 (mem_var2 m1 (mem_var2 m2 f)) x y w
      = call2 f (m2 (m1 x)) (m2 (m1 y)) w).
Proof.
  split; intros; split; reflexivity.
Qed.

(** ** Method adaptors *)

(** X8.  The method adaptors call the method on the receiver, once:
    [mem_fun(pf)(p)] is [(p->*pf)()], and the adaptor with a bound host,
    [mem_fun(t, pf)(v)], is [(t->*pf)(v)], which is what binding the host
    as first argument of the method taken as a function of two arguments
    gives.  Negating a method adaptor over a [bool] method negates the
    answer of the method and keeps its effect. *)
Theorem method_adaptors_call_method :
  (forall (Ret TPtr : Type) (pf : TPtr -> Eff Ret) (p : TPtr) (w : World),
      call1 (mem_fun pf) p w = pf p w /\
      call1 (mem_fun_const pf) p w = pf p w) /\
  (forall (HostType ArgType Ret : Type) (t : HostType)
          (pf : HostType -> ArgType -> Eff Ret) (v : ArgType) (w : World),
      call1 (mem_fun_ext t pf) v w = pf t v w /\
      call1 (mem_fun_ext t pf) v w
      = call1 (bind1st (functor_binary (pf : fn_ptr2 HostType ArgType Ret)) t) v w) /\
  (forall (TPtr : Type) (pf : TPtr -> Eff bool) (p : TPtr) (w : World),
      call1 (unary_negator (mem_fun_const pf)) p w
      = (negb (fst (pf p w)), snd (pf p w))).
Proof.
  split; [| split].
  - intros. split; reflexivity.
  - intros. split; reflexivity.
  - intros.
    cbv [call1 unary_negate_call unary_negator unary_negate_m_pfn bind ret
         const_mem_fun_t_call MEM_FUN_T_call mem_fun_const mem_fun_m_pf
         to_bool from_bool bool_BoolConv].
    destruct (pf p w) as [r w1]. reflexivity.
Qed.

(** ** Logical functors *)

(** X9.  De Morgan over the logical functors, on every [T] that converts
    from [bool] and back without loss: [logical_not] of [logical_and] is
    [logical_or] of the [logical_not]s, and dually.  [logical_not] applied
    twice does not give the operand back but its normal form, the value
    [T(bool(a))]; applied three times it is [logical_not]. *)
Theorem logical_de_morgan :
  forall (T : Type) (B : BoolConv T),
    bool_retract T ->
    forall (a b : T) (w : World),
      value1 (@mk_logical_not T) (value2 (@mk_logical_and T) a b w) w
      = value2 (@mk_logical_or T)
          (value1 (@mk_logical_not T) a w) (value1 (@mk_logical_not T) b w) w /\
      value1 (@mk_logical_not T) (value2 (@mk_logical_or T) a b w) w
      = value2 (@mk_logical_and T)
          (value1 (@mk_logical_not T) a w) (value1 (@mk_logical_not T) b w) w /\
      value1 (@mk_logical_not T) (value1 (@mk_logical_not T) a w) w
      = from_bool (to_bool a) /\
      value1 (@mk_logical_not T)
        (value1 (@mk_logical_not T) (value1 (@mk_logical_not T) a w) w) w
      = value1 (@mk_logical_not T) a w.
Proof.
  intros T B Hr a b w.
  cbv [value1 value2 call1 call2 logical_not_call logical_and_call
       logical_or_call ret fst].
  rewrite !Hr, ?negb_involutive.
  repeat split.
  - now rewrite negb_andb.
  - now rewrite negb_orb.
Qed.

(** X10.  [logical_and] and [logical_or] are commutative and associative,
    on every [T] that converts from [bool] and back without loss; applied
    to a value and itself they give its normal form [T(bool(a))], which on
    an integral [T] is the value itself only for 0 and 1. *)
Theorem logical_and_or_algebra :
  forall (T : Type) (B : BoolConv T),
    bool_retract T ->
    forall (a b c : T) (w : World),
      value2 (@mk_logical_and T) a b w = value2 (@mk_logical_and T) b a w /\
      value2 (@mk_logical_or T) a b w = value2 (@mk_logical_or T) b a w /\
      value2 (@mk_logical_and T) (value2 (@mk_logical_and T) a b w) c w
      = value2 (@mk_logical_and T) a (value2 (@mk_logical_and T) b c w) w /\
      value2 (@mk_logical_or T) (value2 (@mk_logical_or T) a b w) c w
      = value2 (@mk_logical_or T) a (value2 (@mk_logical_or T) b c w) w /\
      value2 (@mk_logical_and T) a a w = from_bool (to_bool a) /\
      value2 (@mk_logical_or T) a a w = from_bool (to_bool a).
Proof.
  intros T B Hr a b c w.
  cbv [value2 call2 logical_and_call logical_or_call ret fst].
  rewrite !Hr.
  repeat split.
  - now rewrite andb_comm.
  - now rewrite orb_comm.
  - now rewrite andb_assoc.
  - now rewrite orb_assoc.
  - now rewrite andb_diag.
  - now rewrite orb_diag.
Qed.

End Compositions.

(** ** Arithmetic functors on [unsigned int] *)

Lemma wrap_unsigned_range (z : Z) : unsigned_range (wrap_unsigned z).
Proof.
  unfold unsigned_range, wrap_unsigned.
  change (2 ^ 32)%N with 4294967296%N. change (2 ^ 32) with 4294967296.
  pose proof (Z.mod_pos_bound z 4294967296 eq_refl). lia.
Qed.

Lemma wrap_unsigned_small (n : unsigned_int) :
  unsigned_range n -> wrap_unsigned (Z.of_N n) = n.
Proof.
  unfold unsigned_int in n. unfold unsigned_range, wrap_unsigned.
  change (2 ^ 32)%N with 4294967296%N. change (2 ^ 32) with 4294967296.
  intros Hn. rewrite Z.mod_small by lia. apply N2Z.id.
Qed.

Lemma wrap_unsigned_of_N (z : Z) :
  Z.of_N (wrap_unsigned z) = z mod 2 ^ 32.
Proof.
  unfold wrap_unsigned. apply Z2N.id.
  change (2 ^ 32) with 4294967296.
  pose proof (Z.mod_pos_bound z 4294967296 eq_refl). lia.
Qed.

Section Arithmetic.

Context {World : Type}.

(** X11.  The arithmetic functors on [unsigned int] values in range compute
    modulo [2 ^ 32]: [plus] is the sum, less [2 ^ 32] when the sum does not
    fit; [minus] is the difference, plus [2 ^ 32] when the subtrahend is the
    larger; [multiplies] is the product modulo [2 ^ 32]; [negate] is 0 for 0
    and [2 ^ 32 - a] otherwise; all four stay in range.  Over a divisor
    that is not zero, [divides] is the one [q] with
    [q * b <= a < (q + 1) * b], and [modulus] is [a - q * b], less than the
    divisor (as [less] confirms). *)
Theorem unsigned_wrap_around :
  forall (a b : unsigned_int) (w : World),
    unsigned_range a -> unsigned_range b ->
    value2 (@mk_plus unsigned_int) a b w
    = (if a + b <? 2 ^ 32 then a + b else a + b - 2 ^ 32)%N /\
    value2 (@mk_minus unsigned_int) a b w
    = (if b <=? a then a - b else a + 2 ^ 32 - b)%N /\
    value2 (@mk_multiplies unsigned_int) a b w = ((a * b) mod 2 ^ 32)%N /\
    value1 (@mk_negate unsigned_int) a w
    = (if a =? 0 then 0 else 2 ^ 32 - a)%N /\
    unsigned_range (value2 (@mk_plus unsigned_int) a b w) /\
    unsigned_range (value2 (@mk_minus unsigned_int) a b w) /\
    unsigned_range (value2 (@mk_multiplies unsigned_int) a b w) /\
    unsigned_range (value1 (@mk_negate unsigned_int) a w) /\
    (b <> 0%N ->
     (value2 (@mk_divides unsigned_int) a b w * b <= a)%N /\
     (a < (value2 (@mk_divides unsigned_int) a b w + 1) * b)%N /\
     value2 (@mk_modulus unsigned_int) a b w
     = (a - value2 (@mk_divides unsigned_int) a b w * b)%N /\
     value2 (@mk_less unsigned_int)
       (value2 (@mk_modulus unsigned_int) a b w) b w = true /\
     unsigned_range (value2 (@mk_divides unsigned_int) a b w) /\
     unsigned_range (value2 (@mk_modulus unsigned_int) a b w)).
Proof.
  intros a b w Ha Hb. unfold unsigned_int in *.
  cbv [value1 value2 call1 call2 plus_call minus_call multiplies_call
       negate_call divides_call modulus_call less_call ret fst
       op_add op_sub op_mul op_neg op_div op_mod op_lt
       unsigned_Arith unsigned_Comparable].
  unfold unsigned_range in Ha, Hb.
  change (2 ^ 32)%N with 4294967296%N in *.
  repeat match goal with |- _ /\ _ => split end;
    try apply wrap_unsigned_range.
  - apply N2Z.inj. rewrite wrap_unsigned_of_N.
    change (2 ^ 32) with 4294967296.
    destruct (N.ltb_spec (a + b) 4294967296).
    + rewrite N2Z.inj_add. apply Z.mod_small. lia.
    + rewrite N2Z.inj_sub, N2Z.inj_add by lia.
      symmetry. apply (Z.mod_unique_pos _ _ 1); lia.
  - apply N2Z.inj. rewrite wrap_unsigned_of_N.
    change (2 ^ 32) with 4294967296.
    destruct (N.leb_spec b a).
    + rewrite N2Z.inj_sub by lia. apply Z.mod_small. lia.
    + rewrite N2Z.inj_sub, N2Z.inj_add by lia.
      symmetry. apply (Z.mod_unique_pos _ _ (-1)); lia.
  - apply N2Z.inj. rewrite wrap_unsigned_of_N.
    now rewrite N2Z.inj_mod, N2Z.inj_mul.
  - apply N2Z.inj. rewrite wrap_unsigned_of_N.
    change (2 ^ 32) with 4294967296.
    destruct (N.eqb_spec a 0).
    + subst a. reflexivity.
    + rewrite N2Z.inj_sub by lia.
      symmetry. apply (Z.mod_unique_pos _ _ (-1)); lia.
  - intros Hnz.
    assert (Hle : (a / b * b <= a)%N).
    { rewrite N.mul_comm. now apply N.Div0.mul_div_le. }
    assert (Hgt : (a < (a / b + 1) * b)%N).
    { rewrite N.add_1_r, N.mul_comm. now apply N.mul_succ_div_gt. }
    assert (Hmod : (a mod b = a - a / b * b)%N).
    { rewrite (N.mul_comm (a / b)). apply N.Div0.mod_eq. }
    assert (Hlt : (a mod b < b)%N) by (now apply N.mod_lt).
    repeat match goal with |- _ /\ _ => split end;
      try assumption.
    + now apply N.ltb_lt.
    + unfold unsigned_range. change (2 ^ 32)%N with 4294967296%N. nia.
    + unfold unsigned_range. change (2 ^ 32)%N with 4294967296%N. lia.
Qed.

(** X12.  On [unsigned int], subtraction undoes addition and addition undoes
    subtraction, also across a wrap-around, and also through the binders:
    [bind2nd(minus, v)] applied to the result of [bind2nd(plus, v)] gives the
    argument back.  [negate] is its own inverse, [a + (-a)] is 0, and
    [minus(a, b)] is [plus(a, negate(b))]. *)
Theorem unsigned_plus_minus_round_trip :
  forall (a b : unsigned_int) (w : World),
    unsigned_range a ->
    value2 (@mk_minus unsigned_int) (value2 (@mk_plus unsigned_int) a b w) b w = a /\
    value2 (@mk_plus unsigned_int) (value2 (@mk_minus unsigned_int) a b w) b w = a /\
    call1 (bind2nd (@mk_minus unsigned_int) b)
          (value1 (bind2nd (@mk_plus unsigned_int) b) a w) w = (a, w) /\
    value1 (@mk_negate unsigned_int) (value1 (@mk_negate unsigned_int) a w) w = a /\
    value2 (@mk_plus unsigned_int) a (value1 (@mk_negate unsigned_int) a w) w = 0%N /\
    value2 (@mk_minus unsigned_int) a b w
    = value2 (@mk_plus unsigned_int) a (value1 (@mk_negate unsigned_int) b w) w.
Proof.
  intros a b w Ha. unfold unsigned_int in *.
  cbv [value1 value2 call1 call2 plus_call minus_call negate_call
       binder2nd_call bind2nd binder2nd_m_pfn binder2nd_m_Value load
       value_Stored ret fst
       op_add op_sub op_neg unsigned_Arith].
  unfold unsigned_range in Ha. change (2 ^ 32)%N with 4294967296%N in Ha.
  assert (Hwrap : forall z, z mod 2 ^ 32 = Z.of_N a -> wrap_unsigned z = a).
  { intros z Hz. unfold wrap_unsigned. rewrite Hz. apply N2Z.id. }
  assert (Hminus : wrap_unsigned
            (Z.of_N (wrap_unsigned (Z.of_N a + Z.of_N b)) - Z.of_N b) = a).
  { apply Hwrap. rewrite wrap_unsigned_of_N.
    change (2 ^ 32) with 4294967296.
    rewrite Zminus_mod_idemp_l.
    replace (Z.of_N a + Z.of_N b - Z.of_N b) with (Z.of_N a) by lia.
    apply Z.mod_small. lia. }
  repeat match goal with |- _ /\ _ => split end.
  - exact Hminus.
  - apply Hwrap. rewrite wrap_unsigned_of_N.
    change (2 ^ 32) with 4294967296.
    rewrite Zplus_mod_idemp_l.
    replace (Z.of_N a - Z.of_N b + Z.of_N b) with (Z.of_N a) by lia.
    apply Z.mod_small. lia.
  - now rewrite Hminus.
  - apply Hwrap. rewrite wrap_unsigned_of_N.
    change (2 ^ 32) with 4294967296.
    rewrite <- (Z.sub_0_l (_ mod _)), Zminus_mod_idemp_r.
    replace (0 - - Z.of_N a) with (Z.of_N a) by lia.
    apply Z.mod_small. lia.
  - unfold wrap_unsigned at 1. rewrite wrap_unsigned_of_N.
    change (2 ^ 32) with 4294967296.
    rewrite Zplus_mod_idemp_r.
    replace (Z.of_N a + - Z.of_N a) with 0 by lia. reflexivity.
  - unfold wrap_unsigned at 1 2. f_equal. rewrite wrap_unsigned_of_N.
    change (2 ^ 32) with 4294967296.
    rewrite Zplus_mod_idemp_r. reflexivity.
Qed.

(** X13.  Division with remainder on [unsigned int]: for a dividend in
    range and a divisor that is not zero,
    [plus(multiplies(divides(a,b), b), modulus(a,b))] is [a]; no step of it
    wraps around. *)
Theorem unsigned_division_identity :
  forall (a b : unsigned_int) (w : World),
    unsigned_range a -> b <> 0%N ->
    value2 (@mk_plus unsigned_int)
      (value2 (@mk_multiplies unsigned_int)
         (value2 (@mk_divides unsigned_int) a b w) b w)
      (value2 (@mk_modulus unsigned_int) a b w) w = a /\
    value2 (@mk_multiplies unsigned_int)
      (value2 (@mk_divides unsigned_int) a b w) b w
    = (a / b * b)%N.
Proof.
  intros a b w Ha Hb. unfold unsigned_int in *.
  cbv [value2 call2 plus_call multiplies_call divides_call modulus_call ret fst
       op_add op_mul op_div op_mod unsigned_Arith].
  pose proof (N.div_mod a b Hb) as Hdm.
  assert (Hle : (a / b * b <= a)%N).
  { rewrite N.mul_comm. now apply N.Div0.mul_div_le. }
  assert (Hmul : wrap_unsigned (Z.of_N (a / b) * Z.of_N b) = (a / b * b)%N).
  { rewrite <- N2Z.inj_mul. apply wrap_unsigned_small.
    unfold unsigned_range in *. change (2 ^ 32)%N with 4294967296%N in *. lia. }
  split; [| exact Hmul].
  rewrite Hmul, <- N2Z.inj_add.
  replace (a / b * b + a mod b)%N with a by lia.
  now apply wrap_unsigned_small.
Qed.

End Arithmetic.

(** ** What the declarations allow to compose *)

(** X14.  A functor class that only derives from a tag can be wrapped by
    the adaptors of its own arity and by no other: with the unary tag it
    can be negated and not bound; with the binary tag it can be bound, on
    either side, and not negated; with the tag of no argument it can be
    neither. *)
Theorem tag_arity_gates_adaptors :
  forall c : Decl.class_decl,
    Decl.typedefs c = [] ->
    match Decl.base c with
    | Decl.void_function _ =>
        Decl.unary_negate c = None /\
        Decl.binder1st c = None /\ Decl.binder2nd c = None
    | Decl.unary_function a r =>
        (exists n, Decl.unary_negate c = Some n /\
                   Decl.base n = Decl.unary_function a r) /\
        Decl.binder1st c = None /\ Decl.binder2nd c = None
    | Decl.binary_function a1 a2 r =>
        Decl.unary_negate c = None /\
        (exists b, Decl.binder1st c = Some b /\
                   Decl.base b = Decl.unary_function a2 r) /\
        (exists b, Decl.binder2nd c = Some b /\
                   Decl.base b = Decl.unary_function a1 r)
    end.
Proof.
  intros [b tds ps r] Htd. simpl in Htd. subst tds.
  destruct b; cbn; repeat split; eexists; split; reflexivity.
Qed.

(** X15.  The binders ask their argument for [first_argument_type] and
    [second_argument_type].  [mem_var2_t] has neither, so neither
    [binder1st] nor [binder2nd] instantiates over it, whatever it wraps;
    [const_mem_var2_t] has both, and the binders over it declare
    [unary_function<const T&, result_type>]. *)
Theorem binders_over_member_adaptors :
  forall (BF : Decl.class_decl) (T VT r : Decl.ctype),
    Decl.member BF Decl.result_type = Some r ->
    (exists d,
        Decl.mem_var2_t BF T VT = Some d /\
        Decl.binder1st d = None /\ Decl.binder2nd d = None) /\
    (exists d b1 b2,
        Decl.const_mem_var2_t BF T VT = Some d /\
        Decl.binder1st d = Some b1 /\ Decl.binder2nd d = Some b2 /\
        Decl.base b1 = Decl.unary_function (Decl.ConstRef T) r /\
        Decl.base b2 = Decl.unary_function (Decl.ConstRef T) r /\
        Decl.call_result b1 = r /\ Decl.call_result b2 = r).
Proof.
  intros BF T VT r Hr.
  unfold Decl.mem_var2_t, Decl.const_mem_var2_t. rewrite Hr. split.
  - eexists. repeat split.
  - do 3 eexists. repeat split.
Qed.

(** X16.  The convenience compositions instantiate for every class [T] and
    member type [VT].  With a value, their class carries
    [unary_function<const T&, bool>]; without one,
    [binary_function<const T&, const T&, bool>].  In both the tag is the
    one of the call operator, and the instances are reached read-only. *)
Theorem convenience_declarations :
  forall T VT : Decl.ctype,
    (forall f, In f [DeclFactory.mem_var_equal_to; DeclFactory.mem_var_less] ->
       exists d,
         f T VT = Some d /\
         Decl.base d = Decl.unary_function (Decl.ConstRef T) Decl.Bool /\
         Decl.call_params d = [Decl.ConstRef T] /\
         Decl.call_result d = Decl.Bool /\
         Decl.tag_matches_call d = true /\
         forallb Decl.read_only_access (Decl.call_params d) = true) /\
    (forall f, In f [DeclFactory.mem_var_equal_to_pair;
                     DeclFactory.mem_var_less_pair] ->
       exists d,
         f T VT = Some d /\
         Decl.base d = Decl.binary_function (Decl.ConstRef T) (Decl.ConstRef T)
                         Decl.Bool /\
         Decl.call_params d = [Decl.ConstRef T; Decl.ConstRef T] /\
         Decl.call_result d = Decl.Bool /\
         Decl.tag_matches_call d = true /\
         forallb Decl.read_only_access (Decl.call_params d) = true).
Proof.
  intros T VT. split; intros f Hf; simpl in Hf;
    repeat (destruct Hf as [<- | Hf];
            [eexists; repeat split; cbn;
             now rewrite ?(passes_same (Decl.ConstRef T)) |]);
    contradiction.
Qed.

(** ** The further properties at work *)

Lemma negation_twice_witness :
  bool_retract Z /\
  value1 (World:=unit)
    (unary_negator (unary_negator (functor (@square unit)))) 3 tt = 1 /\
  value1 (World:=unit) (functor (@square unit)) 3 tt = 9.
Proof.
  split; [exact integral_bool_retract | split; [| reflexivity]].
  exact (proj2 (proj2 (proj2 (@negation_twice unit) _ _ _ _ _
                         (functor (@square unit)) 3 tt integral_bool_retract))).
Defined.

Lemma comparators_on_total_order_witness :
  trichotomous int /\
  value2 (World:=unit) (@mk_greater_equal int) 3 5 tt
  = negb (value2 (World:=unit) (@mk_less int) 3 5 tt).
Proof.
  split; [exact int_trichotomous |].
  exact (proj1 (@comparators_on_total_order unit int _ int_trichotomous 3 5 tt)).
Defined.

Lemma compare_three_way_witness :
  trichotomous int /\
  value2 (World:=unit) (@mk_compare int) 5 3 tt
  = - value2 (World:=unit) (@mk_compare int) 3 5 tt.
Proof.
  split; [exact int_trichotomous |].
  exact (proj1 (proj2 (@compare_three_way unit int _ int_trichotomous 3 5 tt))).
Defined.

Lemma member_comparators_inherit_order_witness :
  strict_order int /\ equivalence_eq int /\
  value2 (World:=unit) (mem_var_less_pair Point_y) p1 p1 tt = false /\
  value2 (World:=unit) (mem_var_equal_to_pair Point_x) p2 p1 tt = true.
Proof.
  destruct (@member_comparators_inherit_order unit Point int _ Point_x)
    as [_ Heq].
  destruct (@member_comparators_inherit_order unit Point int _ Point_y)
    as [Hlt _].
  split; [exact int_strict_order | split; [exact int_equivalence_eq | split]].
  - exact (proj1 (Hlt int_strict_order p1 p1 p1 tt)).
  - exact (proj1 (proj2 (Heq int_equivalence_eq p1 p2 p1 tt)) eq_refl).
Defined.

Lemma logical_de_morgan_witness :
  bool_retract Z /\
  value1 (World:=unit) (@mk_logical_not Z)
    (value2 (World:=unit) (@mk_logical_and Z) 2 0 tt) tt
  = value2 (World:=unit) (@mk_logical_or Z)
      (value1 (World:=unit) (@mk_logical_not Z) 2 tt)
      (value1 (World:=unit) (@mk_logical_not Z) 0 tt) tt.
Proof.
  split; [exact integral_bool_retract |].
  exact (proj1 (@logical_de_morgan unit Z _ integral_bool_retract 2 0 tt)).
Defined.

Lemma logical_and_or_algebra_witness :
  bool_retract Z /\
  value2 (World:=unit) (@mk_logical_and Z) 2 3 tt
  = value2 (World:=unit) (@mk_logical_and Z) 3 2 tt /\
  value2 (World:=unit) (@mk_logical_and Z) 2 2 tt = 1.
Proof.
  split; [exact integral_bool_retract | split].
  - exact (proj1 (@logical_and_or_algebra unit Z _ integral_bool_retract 2 3 0 tt)).
  - exact (proj1 (proj2 (proj2 (proj2 (proj2
             (@logical_and_or_algebra unit Z _ integral_bool_retract 2 3 0 tt)))))).
Defined.

Lemma unsigned_wrap_around_witness :
  unsigned_range 4294967295%N /\ unsigned_range 5%N /\ 5%N <> 0%N /\
  value2 (World:=unit) (@mk_plus unsigned_int) 4294967295%N 5%N tt
  = (if 4294967295 + 5 <? 2 ^ 32 then 4294967295 + 5
     else 4294967295 + 5 - 2 ^ 32)%N /\
  value2 (World:=unit) (@mk_plus unsigned_int) 4294967295%N 5%N tt = 4%N /\
  value2 (World:=unit) (@mk_less unsigned_int)
    (value2 (World:=unit) (@mk_modulus unsigned_int) 4294967295%N 5%N tt)
    5%N tt = true.
Proof.
  pose proof (@unsigned_wrap_around unit 4294967295%N 5%N tt eq_refl eq_refl)
    as (Hplus & _ & _ & _ & _ & _ & _ & _ & Hdiv).
  split; [reflexivity | split; [reflexivity | split; [discriminate |]]].
  split; [exact Hplus | split; [reflexivity |]].
  exact (proj1 (proj2 (proj2 (proj2 (Hdiv ltac:(discriminate)))))).
Defined.

Lemma unsigned_plus_minus_round_trip_witness :
  unsigned_range 4294967295%N /\
  value2 (World:=unit) (@mk_plus unsigned_int) 4294967295%N 5%N tt = 4%N /\
  value2 (World:=unit) (@mk_minus unsigned_int)
    (value2 (World:=unit) (@mk_plus unsigned_int) 4294967295%N 5%N tt) 5%N tt
  = 4294967295%N.
Proof.
  split; [reflexivity | split; [reflexivity |]].
  exact (proj1 (@unsigned_plus_minus_round_trip unit 4294967295%N 5%N tt eq_refl)).
Defined.

Lemma unsigned_division_identity_witness :
  unsigned_range 17%N /\ 5%N <> 0%N /\
  value2 (World:=unit) (@mk_plus unsigned_int)
    (value2 (World:=unit) (@mk_multiplies unsigned_int)
       (value2 (World:=unit) (@mk_divides unsigned_int) 17%N 5%N tt) 5%N tt)
    (value2 (World:=unit) (@mk_modulus unsigned_int) 17%N 5%N tt) tt = 17%N.
Proof.
  split; [reflexivity | split; [discriminate |]].
  exact (proj1 (@unsigned_division_identity unit 17%N 5%N tt eq_refl
                  ltac:(discriminate))).
Defined.

Lemma tag_arity_gates_adaptors_witness :
  Decl.typedefs (Decl.less Decl.Int) = [] /\
  Decl.unary_negate (Decl.less Decl.Int) = None /\
  Decl.typedefs (Decl.mem_fun_t Decl.Bool (Decl.ClassType "Host")) = [] /\
  Decl.binder1st (Decl.mem_fun_t Decl.Bool (Decl.ClassType "Host")) = None.
Proof.
  split; [reflexivity | split; [| split; [reflexivity |]]].
  - exact (proj1 (tag_arity_gates_adaptors (Decl.less Decl.Int) eq_refl)).
  - exact (proj1 (proj2 (tag_arity_gates_adaptors
                           (Decl.mem_fun_t Decl.Bool (Decl.ClassType "Host"))
                           eq_refl))).
Defined.

Lemma binders_over_member_adaptors_witness :
  Decl.member (Decl.less Decl.Int) Decl.result_type = Some Decl.Bool /\
  exists d,
    Decl.mem_var2_t (Decl.less Decl.Int) (Decl.ClassType "Point") Decl.Int = Some d /\
    Decl.binder1st d = None /\ Decl.binder2nd d = None.
Proof.
  split; [reflexivity |].
  exact (proj1 (binders_over_member_adaptors (Decl.less Decl.Int)
                  (Decl.ClassType "Point") Decl.Int Decl.Bool eq_refl)).
Defined.

Lemma conforming_classes_witness :
  Decl.binder2nd (Decl.equal_to Decl.Int)
  = Some (Decl.mk_class (Decl.unary_function Decl.Int Decl.Bool)
            [(Decl.arg1_t, Decl.Int); (Decl.arg2_t, Decl.Int);
             (Decl.result_t, Decl.Bool)]
            [Decl.ConstRef Decl.Int] Decl.Bool) /\
  Decl.tag_matches_call
    (Decl.mk_class (Decl.unary_function Decl.Int Decl.Bool)
       [(Decl.arg1_t, Decl.Int); (Decl.arg2_t, Decl.Int);
        (Decl.result_t, Decl.Bool)]
       [Decl.ConstRef Decl.Int] Decl.Bool) = true.
Proof.
  split; [reflexivity |].
  exact (proj1 (proj2 (proj2 (proj2 (proj2 (proj2 (proj2 conforming_classes))))))
           (Decl.equal_to Decl.Int) _ eq_refl).
Defined.
